(** * Mailpile first-run setup ([mailpile/plugins/setup_magic.py])

    A shallow embedding of [Setup.command] and the properties the
    specification states about it.  The command mutates the session's
    configuration object, talks to the user interface and calls a handful
    of collaborators (the tag command, the migration runner, the keyring
    client, the config store).  The configuration is an explicit record,
    the command is a function in a small state-and-exception monad over a
    [World] (the configuration in memory, the configuration on disk and the
    log of externally visible events), and everything the command only
    reads from its surroundings is a field of [Env]. *)

From stdpp Require Import base decidable option list strings gmap fin_maps.
From Stdlib Require Import Ascii ZArith Lia.

Local Open Scope Z_scope.
Local Open Scope list_scope.
Local Open Scope stdpp_scope.

(** ** Python values and dictionaries *)

(** The values that occur in tag attribute dictionaries. *)
Inductive PyVal : Type :=
  | PyStr (s : string)
  | PyBool (b : bool)
  | PyInt (z : Z).

Global Instance PyVal_eq_dec : EqDecision PyVal.
Proof. solve_decision. Defined.

(** A tag attribute dictionary, [{'type': 'inbox', ...}]. *)
Abbreviation Attrs := (gmap string PyVal).

(** [d.update(other)]: every key of [other] is written into [d]. *)
Definition dict_update (other d : Attrs) : Attrs := other ∪ d.

(** ** The configuration *)

(** A tag of [session.config.tags]: the key it is looked up by and its
    attribute dictionary. The store is a list, so that a duplicated key is
    expressible. *)
Record Tag : Type := mkTag { tag_key : string; tag_attrs : Attrs }.

(** An entry of [session.config.profiles]. *)
Record Profile : Type := mkProfile { email : string; name : string }.

(** [{'active': True}] in [prefs.vcard.importers.gravatar]. *)
Record GravatarImporter : Type := mkGravatar { gravatar_active : bool }.

(** [{'active': True, 'gpg_home': gpg_home}] in [prefs.vcard.importers.gpg]. *)
Record GpgImporter : Type := mkGpgImporter { gpg_active : bool; gpg_home : string }.

(** An entry of [prefs.autotag]. *)
Record AutotagRule : Type := mkAutotag {
  match_tag : string;
  unsure_tag : string;
  tagger : string;
  trainer : string;
  exclude_tags : list string
}.

(** The part of [session.config] that [Setup.command] reads or writes. *)
Record Config : Type := mkConfig {
  sys_lockdown : bool;                      (* config.sys.lockdown *)
  sys_plugins : list string;                (* config.sys.plugins *)
  tags : list Tag;                          (* config.tags *)
  vcard_gravatar : list GravatarImporter;   (* prefs.vcard.importers.gravatar *)
  vcard_gpg : list GpgImporter;             (* prefs.vcard.importers.gpg *)
  prefs_autotag : list AutotagRule;         (* prefs.autotag *)
  profiles : list Profile;                  (* config.profiles *)
  gpg_recipient : string;                   (* prefs.gpg_recipient *)
  crypto_policy : string;                   (* prefs.crypto_policy *)
  obfuscate_index : string;                 (* prefs.obfuscate_index *)
  index_encrypted : bool                    (* prefs.index_encrypted *)
}.

Definition set_sys_plugins (f : list string → list string) (c : Config) : Config :=
  mkConfig (sys_lockdown c) (f (sys_plugins c)) (tags c) (vcard_gravatar c)
    (vcard_gpg c) (prefs_autotag c) (profiles c) (gpg_recipient c)
    (crypto_policy c) (obfuscate_index c) (index_encrypted c).

Definition set_tags (f : list Tag → list Tag) (c : Config) : Config :=
  mkConfig (sys_lockdown c) (sys_plugins c) (f (tags c)) (vcard_gravatar c)
    (vcard_gpg c) (prefs_autotag c) (profiles c) (gpg_recipient c)
    (crypto_policy c) (obfuscate_index c) (index_encrypted c).

Definition set_vcard_gravatar (f : list GravatarImporter → list GravatarImporter)
    (c : Config) : Config :=
  mkConfig (sys_lockdown c) (sys_plugins c) (tags c) (f (vcard_gravatar c))
    (vcard_gpg c) (prefs_autotag c) (profiles c) (gpg_recipient c)
    (crypto_policy c) (obfuscate_index c) (index_encrypted c).

Definition set_vcard_gpg (f : list GpgImporter → list GpgImporter)
    (c : Config) : Config :=
  mkConfig (sys_lockdown c) (sys_plugins c) (tags c) (vcard_gravatar c)
    (f (vcard_gpg c)) (prefs_autotag c) (profiles c) (gpg_recipient c)
    (crypto_policy c) (obfuscate_index c) (index_encrypted c).

Definition set_prefs_autotag (f : list AutotagRule → list AutotagRule)
    (c : Config) : Config :=
  mkConfig (sys_lockdown c) (sys_plugins c) (tags c) (vcard_gravatar c)
    (vcard_gpg c) (f (prefs_autotag c)) (profiles c) (gpg_recipient c)
    (crypto_policy c) (obfuscate_index c) (index_encrypted c).

Definition set_profiles (f : list Profile → list Profile) (c : Config) : Config :=
  mkConfig (sys_lockdown c) (sys_plugins c) (tags c) (vcard_gravatar c)
    (vcard_gpg c) (prefs_autotag c) (f (profiles c)) (gpg_recipient c)
    (crypto_policy c) (obfuscate_index c) (index_encrypted c).

Definition set_gpg_recipient (v : string) (c : Config) : Config :=
  mkConfig (sys_lockdown c) (sys_plugins c) (tags c) (vcard_gravatar c)
    (vcard_gpg c) (prefs_autotag c) (profiles c) v
    (crypto_policy c) (obfuscate_index c) (index_encrypted c).

Definition set_crypto_policy (v : string) (c : Config) : Config :=
  mkConfig (sys_lockdown c) (sys_plugins c) (tags c) (vcard_gravatar c)
    (vcard_gpg c) (prefs_autotag c) (profiles c) (gpg_recipient c)
    v (obfuscate_index c) (index_encrypted c).

Definition set_obfuscate_index (v : string) (c : Config) : Config :=
  mkConfig (sys_lockdown c) (sys_plugins c) (tags c) (vcard_gravatar c)
    (vcard_gpg c) (prefs_autotag c) (profiles c) (gpg_recipient c)
    (crypto_policy c) v (index_encrypted c).

Definition set_index_encrypted (v : bool) (c : Config) : Config :=
  mkConfig (sys_lockdown c) (sys_plugins c) (tags c) (vcard_gravatar c)
    (vcard_gpg c) (prefs_autotag c) (profiles c) (gpg_recipient c)
    (crypto_policy c) (obfuscate_index c) v.

(** ** The keyring *)

(** A user identity of a key: a dictionary in which both ["email"] and
    ["name"] may be absent. *)
Record Uid : Type := mkUid { uid_email : option string; uid_name : option string }.

(** The details of a secret key as [list_secret_keys] reports them:
    ["revocation-date"] is optional, ["uids"] and
    [["capabilities"]["encrypt"]] are always there. *)
Record KeyDetails : Type := mkKey {
  revocation_date : option string;
  uids : list Uid;
  cap_encrypt : bool
}.

(** ** The surroundings of a run *)

(** The outcome of [fmt % key] for a string [key]: Python's string
    formatting gives the formatted string, or raises [TypeError] (the format
    does not take exactly one argument, or asks for another type of
    argument) or [ValueError] (the format is malformed). *)
Inductive Formatting : Type :=
  | Formatted (s : string)
  | FormatTypeError
  | FormatValueError.

(** What the command reads from outside the configuration. Within one
    environment nothing external changes. *)
Record Env : Type := mkEnv {
  gettext : string → string;                 (* _ *)
  str_mod : string → string → Formatting;    (* fmt % key, key a string *)
  PLUGINS : list string;                     (* mailpile.plugins.__all__ *)
  SignatureInfo_STATUSES : list string;
  EncryptionInfo_STATUSES : list string;
  sha512b64 : string → string → string → string;   (* mailpile.util *)
  AddTag_run : string → option Attrs;
      (* AddTag(session, arg=[t]).run(save=False): the attributes of the
         tag it creates, or None when it creates none *)
  autotag_sb_importable : bool;              (* import mailpile.plugins.autotag_sb *)
  expanduser_gnupg : string;                 (* os.path.expanduser('~/.gnupg') *)
  gpg_home_exists : bool;                    (* os.path.exists(gpg_home) *)
  gnupg_is_available : bool;                 (* GnuPG().is_available() *)
  list_secret_keys : list (string * KeyDetails);
      (* GnuPG().list_secret_keys().iteritems(), in iteration order *)
  today : string;                            (* date.today().strftime("%Y-%m-%d") *)
  idx_INDEX : bool                           (* self._idx() and self._idx().INDEX *)
}.

(** What differs between two runs even when nothing external changed. *)
Record Entropy : Type := mkEntropy {
  urandom_1024 : string;                     (* open('/dev/urandom').read(1024) *)
  time_time : string                         (* '%s' % time.time() *)
}.

(** ** Events, worlds and the command monad *)

Inductive Event : Type :=
  | EvNotify (msg : string)                  (* session.ui.notify *)
  | EvWarning (msg : string)                 (* session.ui.warning *)
  | EvMigrate (before_setup after_setup : bool)
  | EvOpenLocalMailbox
  | EvSave                                   (* session.config.save() *)
  | EvLoad.                                  (* session.config.load(session) *)

Global Instance Event_eq_dec : EqDecision Event.
Proof. solve_decision. Defined.

Record World : Type := mkWorld {
  cfg : Config;          (* the configuration object in memory *)
  disk : Config;         (* the configuration as last saved *)
  log : list Event       (* events so far, oldest first *)
}.

Inductive Exn : Type :=
  | AttributeError       (* None.update(...) *)
  | KeyError (k : string)
  | TypeError            (* fmt % key *)
  | ValueError.          (* fmt % key *)

Inductive Outcome (A : Type) : Type :=
  | Ok (a : A) (w : World)
  | Raise (e : Exn) (w : World).
Arguments Ok {A} a w.
Arguments Raise {A} e w.

Definition M (A : Type) : Type := World → Outcome A.

Definition ret {A} (a : A) : M A := λ w, Ok a w.

Definition bind {A B} (m : M A) (k : A → M B) : M B :=
  λ w, match m w with
       | Ok a w' => k a w'
       | Raise e w' => Raise e w'
       end.

Notation "x <- c ;; k" := (bind c (λ x, k))
  (at level 100, c at next level, right associativity, only parsing).
Notation "c ;;; k" := (bind c (λ _, k))
  (at level 100, right associativity, only parsing).

Definition raise {A} (e : Exn) : M A := λ w, Raise e w.

Definition get_config : M Config := λ w, Ok (cfg w) w.

Definition modify (f : Config → Config) : M unit :=
  λ w, Ok () (mkWorld (f (cfg w)) (disk w) (log w)).

Definition emit (e : Event) : M unit :=
  λ w, Ok () (mkWorld (cfg w) (disk w) (log w ++ [e])).

Definition when (b : bool) (m : M unit) : M unit := if b then m else ret ().

(** [for x in l: acc = body(x, acc)] *)
Fixpoint for_each {A S} (l : list A) (body : A → S → M S) (acc : S) : M S :=
  match l with
  | [] => ret acc
  | x :: l' => acc' <- body x acc ;; for_each l' body acc'
  end.

(** [for x in l: body(x)] *)
Definition for_ {A} (l : list A) (body : A → M unit) : M unit :=
  for_each l (λ x _, body x) ().

(** ** The tag store *)

(** [session.config.get_tag(t)]: the first tag with that key, [None] when
    there is none. *)
Fixpoint get_tag (t : string) (ts : list Tag) : option Tag :=
  match ts with
  | [] => None
  | x :: ts' => if decide (tag_key x = t) then Some x else get_tag t ts'
  end.

(** [session.config.get_tag_id(t)]: the position of that tag, [None] when
    there is none. The command only tests it for truth. *)
Fixpoint get_tag_id (t : string) (ts : list Tag) : option nat :=
  match ts with
  | [] => None
  | x :: ts' => if decide (tag_key x = t) then Some 0%nat
                else S <$> get_tag_id t ts'
  end.

(** [session.config.get_tag(t).update(attrs)] on a store that has the
    tag: the tag object is shared with the store, so the store sees the
    new attributes. *)
Fixpoint update_tag (t : string) (attrs : Attrs) (ts : list Tag) : list Tag :=
  match ts with
  | [] => []
  | x :: ts' =>
      if decide (tag_key x = t)
      then mkTag (tag_key x) (dict_update attrs (tag_attrs x)) :: ts'
      else x :: update_tag t attrs ts'
  end.

(** Modelled from the spec: [AddTag] of [mailpile.plugins.tags] is not part
    of the sources at hand; the spec gives it as [createTag(key)] of the
    tag store and lists a creation failure among the recoverable errors.
    A successful creation appends one tag with the given key; a failed one
    leaves the store as it is and returns its error to the caller. *)
Definition AddTag (env : Env) (t : string) : M bool :=
  match AddTag_run env t with
  | Some attrs => modify (set_tags (λ ts, ts ++ [mkTag t attrs])) ;;; ret true
  | None => ret false
  end.

(** Modelled from the spec: [session.config.save()] and
    [session.config.load(session)] are not part of the sources at hand; the
    spec gives them as "persist to durable storage" and "reload". *)
Definition config_save : M unit :=
  λ w, Ok () (mkWorld (cfg w) (cfg w) (log w ++ [EvSave])).

Definition config_load : M unit :=
  λ w, Ok () (mkWorld (disk w) (disk w) (log w ++ [EvLoad])).

(** Modelled from the spec: the migration runner and the mailbox
    initialiser are external collaborators that are not part of the sources
    at hand; a call is recorded as an event and leaves the fields of
    [Config] alone. *)
Definition Migrate_run (before_setup after_setup : bool) : M unit :=
  emit (EvMigrate before_setup after_setup).

Definition open_local_mailbox : M unit := emit EvOpenLocalMailbox.

(** ** [Setup.TAGS] *)

Definition TAGS (tr : string → string) : list (string * Attrs) :=
  [ ("New", list_to_map
       [ ("type", PyStr "unread"); ("label", PyBool false);
         ("display", PyStr "invisible"); ("icon", PyStr "icon-new");
         ("label_color", PyStr "03-gray-dark"); ("name", PyStr (tr "New")) ]);
    ("Inbox", list_to_map
       [ ("type", PyStr "inbox"); ("display", PyStr "priority");
         ("display_order", PyInt 2); ("icon", PyStr "icon-inbox");
         ("label_color", PyStr "06-blue"); ("name", PyStr (tr "Inbox")) ]);
    ("Blank", list_to_map
       [ ("type", PyStr "blank"); ("flag_editable", PyBool true);
         ("display", PyStr "invisible"); ("name", PyStr (tr "Blank")) ]);
    ("Drafts", list_to_map
       [ ("type", PyStr "drafts"); ("flag_editable", PyBool true);
         ("display", PyStr "priority"); ("display_order", PyInt 1);
         ("icon", PyStr "icon-compose"); ("label_color", PyStr "03-gray-dark");
         ("name", PyStr (tr "Drafts")) ]);
    ("Outbox", list_to_map
       [ ("type", PyStr "outbox"); ("display", PyStr "priority");
         ("display_order", PyInt 3); ("icon", PyStr "icon-outbox");
         ("label_color", PyStr "06-blue"); ("name", PyStr (tr "Outbox")) ]);
    ("Sent", list_to_map
       [ ("type", PyStr "sent"); ("display", PyStr "priority");
         ("display_order", PyInt 4); ("icon", PyStr "icon-sent");
         ("label_color", PyStr "03-gray-dark"); ("name", PyStr (tr "Sent")) ]);
    ("Spam", list_to_map
       [ ("type", PyStr "spam"); ("flag_hides", PyBool true);
         ("display", PyStr "priority"); ("display_order", PyInt 5);
         ("icon", PyStr "icon-spam"); ("label_color", PyStr "10-orange");
         ("name", PyStr (tr "Spam")) ]);
    ("MaybeSpam", list_to_map
       [ ("display", PyStr "invisible"); ("icon", PyStr "icon-spam");
         ("label_color", PyStr "10-orange"); ("name", PyStr (tr "MaybeSpam")) ]);
    ("Ham", list_to_map
       [ ("type", PyStr "ham"); ("display", PyStr "invisible");
         ("name", PyStr (tr "Ham")) ]);
    ("Trash", list_to_map
       [ ("type", PyStr "trash"); ("flag_hides", PyBool true);
         ("display", PyStr "priority"); ("display_order", PyInt 6);
         ("icon", PyStr "icon-trash"); ("label_color", PyStr "13-brown");
         ("name", PyStr (tr "Trash")) ]);
    ("All Mail", list_to_map
       [ ("type", PyStr "tag"); ("icon", PyStr "icon-logo");
         ("label_color", PyStr "06-blue"); ("search_terms", PyStr "all:mail");
         ("name", PyStr (tr "All Mail")); ("display_order", PyInt 1000) ]);
    ("Photos", list_to_map
       [ ("type", PyStr "tag"); ("icon", PyStr "icon-photos");
         ("label_color", PyStr "08-green"); ("search_terms", PyStr "att:jpg");
         ("name", PyStr (tr "Photos")); ("template", PyStr "photos");
         ("display_order", PyInt 1001) ]);
    ("Files", list_to_map
       [ ("type", PyStr "tag"); ("icon", PyStr "icon-document");
         ("label_color", PyStr "06-blue");
         ("search_terms", PyStr "has:attachment");
         ("name", PyStr (tr "Files")); ("template", PyStr "files");
         ("display_order", PyInt 1002) ]);
    ("Links", list_to_map
       [ ("type", PyStr "tag"); ("icon", PyStr "icon-links");
         ("label_color", PyStr "12-red"); ("search_terms", PyStr "http");
         ("name", PyStr (tr "Links")); ("display_order", PyInt 1003) ]);
    ("mp_rpl", list_to_map
       [ ("type", PyStr "replied"); ("label", PyBool false);
         ("display", PyStr "invisible") ]);
    ("mp_fwd", list_to_map
       [ ("type", PyStr "fwded"); ("label", PyBool false);
         ("display", PyStr "invisible") ]);
    ("mp_tag", list_to_map
       [ ("type", PyStr "tagged"); ("label", PyBool false);
         ("display", PyStr "invisible") ]);
    ("mp_read", list_to_map
       [ ("type", PyStr "read"); ("label", PyBool false);
         ("display", PyStr "invisible") ]);
    ("mp_ham", list_to_map
       [ ("type", PyStr "ham"); ("label", PyBool false);
         ("display", PyStr "invisible") ]) ].

(** The dictionary the attribute tags are updated with. *)
Definition attribute_attrs : Attrs :=
  list_to_map [ ("type", PyStr "attribute"); ("display", PyStr "invisible");
                ("label", PyBool false) ].

(** ['mp_%s-%s' % (stype, status)] *)
Definition attribute_tagname (stype status : string) : string :=
  "mp_" +:+ stype +:+ "-" +:+ status.

(** [fmt % key] as a step of the command (line 257): the formatted string,
    or the exception the formatting raises. *)
Definition format_with (env : Env) (fmt key : string) : M string :=
  match str_mod env fmt key with
  | Formatted s => ret s
  | FormatTypeError => raise TypeError
  | FormatValueError => raise ValueError
  end.

(** ** [Setup.command] *)

(** What [self._success] and [self._error] hand back. *)
Inductive Result : Type :=
  | Success (msg : string)
  | Error (msg : string).

(** Truth of a Python string and of a Python list. *)
Definition str_truthy (s : string) : bool :=
  match s with EmptyString => false | String _ _ => true end.

Definition list_truthy {A} (l : list A) : bool :=
  match l with [] => false | _ :: _ => true end.

(** The body of both tag loops:
<<
    if not session.config.get_tag_id(t):
        AddTag(session, arg=[t]).run(save=False)
        created.append(t)
    session.config.get_tag(t).update(attrs)
>>
    The result of [AddTag] is dropped; [get_tag] of a missing tag is [None],
    and [None.update] raises. *)
Definition ensure_tag (env : Env) (t : string) (attrs : Attrs)
    (created : list string) : M (list string) :=
  c <- get_config ;;
  created' <- match get_tag_id t (tags c) with
              | None => (_ <- AddTag env t ;; ret (created ++ [t]))
              | Some _ => ret created
              end ;;
  c' <- get_config ;;
  match get_tag t (tags c') with
  | None => raise AttributeError
  | Some _ => (modify (set_tags (update_tag t attrs)) ;;; ret created')
  end.

(** The canonical taxonomy in the order the two loops visit it: the keys
    of [TAGS], then [mp_sig-<status>] and [mp_enc-<status>]. *)
Definition attribute_tags (env : Env) : list (string * list string) :=
  [ ("sig", SignatureInfo_STATUSES env); ("enc", EncryptionInfo_STATUSES env) ].

(** "Create standard tags and filters" (lines 163-180); returns [created]. *)
Definition create_standard_tags (env : Env) : M (list string) :=
  created <- for_each (TAGS (gettext env))
               (λ '(t, attrs) created, ensure_tag env t attrs created) [] ;;
  for_each (attribute_tags env)
    (λ '(stype, statuses) created,
       for_each statuses
         (λ status created,
            ensure_tag env (attribute_tagname stype status) attribute_attrs created)
         created)
    created.

(** "Import all the basic plugins" (lines 186-197). *)
Definition import_plugins (env : Env) : M unit :=
  for_ (PLUGINS env)
    (λ plugin,
       c <- get_config ;;
       when (bool_decide (plugin ∉ sys_plugins c))
         (modify (set_sys_plugins (λ l, l ++ [plugin])))) ;;;
  if autotag_sb_importable env
  then
    (c <- get_config ;;
     when (bool_decide ("autotag_sb" ∉ sys_plugins c))
       (modify (set_sys_plugins (λ l, l ++ ["autotag_sb"])) ;;;
        emit (EvNotify (gettext env "Enabling spambayes autotagger"))))
  else
    emit (EvWarning (gettext env
            "Please install spambayes for super awesome spam filtering")).

(** The vcard importers (lines 201-210). *)
Definition enable_importers (env : Env) : M unit :=
  c <- get_config ;;
  when (negb (list_truthy (vcard_gravatar c)))
    (modify (set_vcard_gravatar (λ l, l ++ [mkGravatar true])) ;;;
     emit (EvNotify (gettext env "Enabling gravatar image importer"))) ;;;
  c <- get_config ;;
  when (gpg_home_exists env && negb (list_truthy (vcard_gpg c)))
    (modify (set_vcard_gpg
               (λ l, l ++ [mkGpgImporter true (expanduser_gnupg env)])) ;;;
     emit (EvNotify (gettext env "Importing contacts from GPG keyring"))).

(** [rules[0].exclude_tags[0] = tag]: the first rule gets [tag] as its first
    excluded tag. *)
Definition set_first_exclude (tag : string) (rules : list AutotagRule)
    : list AutotagRule :=
  match rules with
  | [] => []
  | r :: rules' =>
      mkAutotag (match_tag r) (unsure_tag r) (tagger r) (trainer r)
        (tag :: tail (exclude_tags r)) :: rules'
  end.

(** The default autotag rule (lines 212-220). *)
Definition setup_autotag : M unit :=
  c <- get_config ;;
  when (bool_decide ("autotag_sb" ∈ sys_plugins c)
        && Nat.eqb (length (prefs_autotag c)) 0)
    (modify (set_prefs_autotag
               (λ l, l ++ [mkAutotag "spam" "maybespam" "spambayes" "spambayes" []])) ;;;
     modify (set_prefs_autotag (set_first_exclude "ham"))).

(** "Ignore revoked/expired keys" (lines 233-235): the comparison is the
    one of Python strings. *)
Definition revoked (env : Env) (details : KeyDetails) : bool :=
  match revocation_date details with
  | Some d => String.leb d (today env)
  | None => false
  end.

(** The body of the loop over [details["uids"]] (lines 240-253). *)
Definition add_profile (uid : Uid) : M unit :=
  match uid_email uid with
  | None => ret ()
  | Some e =>
      if decide (e = "") then ret ()
      else
        c <- get_config ;;
        if decide (e ∈ email <$> profiles c) then ret ()
        else match uid_name uid with
             | None => raise (KeyError "name")
             | Some n => modify (set_profiles (λ l, l ++ [mkProfile e n]))
             end
  end.

(** The body of the loop over the secret keys (lines 232-259). *)
Definition setup_key (env : Env) (key : string) (details : KeyDetails)
    (accepted_keys : list string) : M (list string) :=
  if revoked env details then ret accepted_keys
  else
    for_ (uids details) add_profile ;;;
    c <- get_config ;;
    when (negb (str_truthy (gpg_recipient c)) && cap_encrypt details)
      (modify (set_gpg_recipient key) ;;;
       msg <- format_with env (gettext env "Encrypting config to %s") key ;;
       emit (EvNotify msg)) ;;;
    c' <- get_config ;;
    when (bool_decide (crypto_policy c' = "none"))
      (modify (set_crypto_policy "openpgp-sign")) ;;;
    ret (accepted_keys ++ [key]).

(** The keyring stage (lines 227-267). *)
Definition discover_keys (env : Env) : M unit :=
  if gnupg_is_available env
  then
    (_ <- for_each (list_secret_keys env)
            (λ '(key, details) accepted_keys,
               setup_key env key details accepted_keys) [] ;;
     ret ())
  else emit (EvWarning (gettext env "Oh no, PGP/GPG support is unavailable!")).

(** The obfuscation decision (lines 269-278). *)
Definition obfuscate (env : Env) (rnd : Entropy) : M unit :=
  c <- get_config ;;
  when (str_truthy (gpg_recipient c)
        && negb (idx_INDEX env)
        && negb (str_truthy (obfuscate_index c)))
    (let randcrap := sha512b64 env (urandom_1024 rnd) (gpg_recipient c)
                       (time_time rnd) in
     modify (set_obfuscate_index randcrap) ;;;
     modify (set_index_encrypted true) ;;;
     emit (EvNotify (gettext env
       "Obfuscating search index and enabling indexing of encrypted e-mail. "))).

(** Everything after the lockdown guard. *)
Definition setup_body (env : Env) (rnd : Entropy) : M Result :=
  Migrate_run true false ;;;
  open_local_mailbox ;;;
  created <- create_standard_tags env ;;
  when (bool_decide ("New" ∈ created))
    (emit (EvNotify (gettext env "Created default tags"))) ;;;
  import_plugins env ;;;
  config_save ;;;
  config_load ;;;
  enable_importers env ;;;
  setup_autotag ;;;
  discover_keys env ;;;
  obfuscate env rnd ;;;
  Migrate_run false true ;;;
  config_save ;;;
  ret (Success (gettext env "Performed initial Mailpile setup")).

Definition command (env : Env) (rnd : Entropy) : M Result :=
  c <- get_config ;;
  if sys_lockdown c
  then ret (Error (gettext env "In lockdown, doing nothing."))
  else setup_body env rnd.

(** The world a computation ends in, whether it returns or raises. *)
Definition final {A} (o : Outcome A) : World :=
  match o with Ok _ w => w | Raise _ w => w end.

(** The command run again and again, each time in its own surroundings and
    whatever the outcome of the run before; the world after the last run. *)
Fixpoint run_all (runs : list (Env * Entropy)) (w : World) : World :=
  match runs with
  | [] => w
  | (env, rnd) :: runs' => run_all runs' (final (command env rnd w))
  end.

(** The same surroundings with another keyring listing. *)
Definition with_secret_keys (keys : list (string * KeyDetails)) (env : Env) : Env :=
  mkEnv (gettext env) (str_mod env) (PLUGINS env) (SignatureInfo_STATUSES env)
    (EncryptionInfo_STATUSES env) (sha512b64 env) (AddTag_run env)
    (autotag_sb_importable env) (expanduser_gnupg env) (gpg_home_exists env)
    (gnupg_is_available env) keys (today env) (idx_INDEX env).

(** The same surroundings with another behaviour of [AddTag]. *)
Definition with_AddTag_run (run : string → option Attrs) (env : Env) : Env :=
  mkEnv (gettext env) (str_mod env) (PLUGINS env) (SignatureInfo_STATUSES env)
    (EncryptionInfo_STATUSES env) (sha512b64 env) run
    (autotag_sb_importable env) (expanduser_gnupg env) (gpg_home_exists env)
    (gnupg_is_available env) (list_secret_keys env) (today env) (idx_INDEX env).

(** ** Sample surroundings

    A fresh installation, a keyring with two usable keys, and variations of
    both; the concrete runs below evaluate the command on them. *)

Definition fresh_config : Config :=
  mkConfig false [] [] [] [] [] [] "" "none" "" false.

Definition fresh_world : World := mkWorld fresh_config fresh_config [].

Definition sample_keyring : list (string * KeyDetails) :=
  [ ("KEYA", mkKey None [mkUid (Some "alice@example.com") (Some "Alice")] true);
    ("KEYB", mkKey None [mkUid (Some "bob@example.com") (Some "Bob")] true) ].

(** A stand-in for [fmt % key] on formats made of plain text, [%%] and
    [%s]: one [%s] takes the key, a second one finds no argument left, none
    leaves the argument unused (both [TypeError]). Other conversions are
    outside the stand-in, which answers [ValueError] for them. *)
Definition prepend (s : string) (r : Formatting) : Formatting :=
  match r with
  | Formatted t => Formatted (s +:+ t)
  | FormatTypeError => FormatTypeError
  | FormatValueError => FormatValueError
  end.

Fixpoint sample_format (fmt key : string) (used : bool) : Formatting :=
  match fmt with
  | EmptyString => if used then Formatted "" else FormatTypeError
  | String "%"%char (String "s"%char rest) =>
      if used then FormatTypeError
      else prepend key (sample_format rest key true)
  | String "%"%char (String "%"%char rest) =>
      prepend "%" (sample_format rest key used)
  | String "%"%char _ => FormatValueError
  | String c rest => prepend (String c "") (sample_format rest key used)
  end.

Definition sample_str_mod (fmt key : string) : Formatting :=
  sample_format fmt key false.

(** A stand-in for the digest: any function with non-empty results will do. *)
Definition sample_digest (rand key now : string) : string :=
  "digest:" +:+ key +:+ ":" +:+ now.

Definition sample_env : Env :=
  mkEnv id sample_str_mod ["tags"; "setup_magic"] ["none"; "verified"]
    ["none"; "decrypted"]
    sample_digest (λ _, Some ∅) true "/home/user/.gnupg" true true
    sample_keyring "2024-01-01" false.

(** The fresh installation in lockdown. *)
Definition locked_world : World :=
  mkWorld (mkConfig true [] [] [] [] [] [] "" "none" "" false) fresh_config [].

Definition sample_rnd : Entropy := mkEntropy "r4nd0m" "1700000000.0".
Definition other_rnd : Entropy := mkEntropy "0th3r" "1700000099.5".

(** The sample keyring listed the other way round. *)
Definition swapped_env : Env := with_secret_keys (reverse sample_keyring) sample_env.

(** A key revoked long before the sample day, listed before the two usable
    keys. *)
Definition revoked_key : KeyDetails :=
  mkKey (Some "2000-01-01") [mkUid (Some "carol@example.com") (Some "Carol")] true.

Definition revoked_env : Env :=
  with_secret_keys (("KEYR", revoked_key) :: sample_keyring) sample_env.

(** Surroundings in which the tag "Inbox" cannot be created. *)
Definition failing_env : Env :=
  with_AddTag_run (λ t, if decide (t = "Inbox") then None else Some ∅) sample_env.

(** An installation where the tag "Ham" exists and carries an icon of the
    user's choice. *)
Definition custom_world : World :=
  mkWorld
    (mkConfig false [] [mkTag "Ham" {[ "icon" := PyStr "icon-ham" ]}]
       [] [] [] [] "" "none" "" false)
    fresh_config [].

(** The world after the first run on a fresh installation. *)
Definition first_run_world : World :=
  final (command sample_env sample_rnd fresh_world).

(** The sample surroundings without GnuPG. *)
Definition no_gpg_env : Env :=
  mkEnv id sample_str_mod ["tags"; "setup_magic"] ["none"; "verified"]
    ["none"; "decrypted"]
    sample_digest (λ _, Some ∅) true "/home/user/.gnupg" true false
    sample_keyring "2024-01-01" false.


(** The sample keyring followed by a key whose user identities have no
    name: the first shares its address with a key listed before it, the
    second has an address of its own. *)
Definition nameless_key : KeyDetails :=
  mkKey None [ mkUid (Some "alice@example.com") None;
               mkUid (Some "dave@example.com") None ] true.

Definition nameless_env : Env :=
  with_secret_keys (sample_keyring ++ [("KEYU", nameless_key)]) sample_env.

(** The canonical attributes of the tag "Inbox", with the identity as
    translation. *)
Definition inbox_attrs : Attrs :=
  list_to_map [ ("type", PyStr "inbox"); ("display", PyStr "priority");
                ("display_order", PyInt 2); ("icon", PyStr "icon-inbox");
                ("label_color", PyStr "06-blue"); ("name", PyStr "Inbox") ].

(** ** Vocabulary for the statements *)

(** [keeps R m w]: running [m] from [w] ends in a world related to [w],
    also when [m] raises. *)
Definition keeps {A} (R : relation World) (m : M A) (w : World) : Prop :=
  R w (final (m w)).

(** A relation on configurations, read on the configurations in memory. *)
Definition on_cfg (Rc : relation Config) : relation World :=
  λ w w', Rc (cfg w) (cfg w').

(** Footprints: the second configuration is the first one except for the
    named fields. *)
Definition only_tags : relation Config :=
  λ c c', c' = set_tags (λ _, tags c') c.

Definition only_plugins : relation Config :=
  λ c c', c' = set_sys_plugins (λ _, sys_plugins c') c.

Definition only_importers : relation Config :=
  λ c c', c' = set_vcard_gpg (λ _, vcard_gpg c')
                 (set_vcard_gravatar (λ _, vcard_gravatar c') c).

Definition only_autotag : relation Config :=
  λ c c', c' = set_prefs_autotag (λ _, prefs_autotag c') c.

Definition only_identity : relation Config :=
  λ c c', c' = set_crypto_policy (crypto_policy c')
                 (set_gpg_recipient (gpg_recipient c')
                    (set_profiles (λ _, profiles c') c)).

Definition only_obfuscation : relation Config :=
  λ c c', c' = set_index_encrypted (index_encrypted c')
                 (set_obfuscate_index (obfuscate_index c') c).

(** Events of the user interface, as opposed to calls of collaborators. *)
Definition is_ui (e : Event) : bool :=
  match e with EvNotify _ | EvWarning _ => true | _ => false end.

(** Nothing is saved and only the user interface is talked to. *)
Definition ui_only : relation World :=
  λ w w', disk w' = disk w ∧
          ∃ evs, log w' = log w ++ evs ∧ forallb is_ui evs = true.

(** The canonical taxonomy as one list: [TAGS], then the attribute tags. *)
Definition canonical_tags (env : Env) : list (string * Attrs) :=
  TAGS (gettext env)
  ++ ((λ status, (attribute_tagname "sig" status, attribute_attrs))
        <$> SignatureInfo_STATUSES env)
  ++ ((λ status, (attribute_tagname "enc" status, attribute_attrs))
        <$> EncryptionInfo_STATUSES env).

(** The tags of a store that carry a given key. *)
Definition tags_with_key (k : string) (ts : list Tag) : list Tag :=
  filter (λ x, tag_key x = k) ts.

(** Profiles are only appended, each with a non-empty e-mail address that
    no earlier profile has. *)
Definition profiles_grow : relation Config :=
  λ c c', ∃ new, profiles c' = profiles c ++ new ∧
                 NoDup (email <$> new) ∧
                 ∀ e, e ∈ email <$> new → e ≠ "" ∧ e ∉ email <$> profiles c.

(** A recipient key that is set stays as it is. *)
Definition recipient_fixed : relation Config :=
  λ c c', gpg_recipient c ≠ "" → gpg_recipient c' = gpg_recipient c.

(** An obfuscation salt that is set stays as it is, and so does the flag. *)
Definition obfuscation_fixed : relation Config :=
  λ c c', obfuscate_index c ≠ "" →
          obfuscate_index c' = obfuscate_index c ∧
          index_encrypted c' = index_encrypted c.

(** The two configurations agree on what [f] reads. *)
Definition same_on {B} (f : Config → B) : relation Config :=
  λ c c', f c' = f c.

(** The store has a tag with key [k] whose attributes include [attrs]. *)
Definition has_tag (k : string) (attrs : Attrs) (ts : list Tag) : Prop :=
  ∃ x, get_tag k ts = Some x ∧ attrs ⊆ tag_attrs x.

(** Every canonical tag is in the store with its canonical attributes. *)
Definition tags_settled (env : Env) (ts : list Tag) : Prop :=
  ∀ k attrs, (k, attrs) ∈ canonical_tags env → has_tag k attrs ts.

(** A settled tag store is left as it is. *)
Definition tags_stay (env : Env) : relation Config :=
  λ c c', tags_settled env (tags c) → tags c' = tags c.

(** No tag key is duplicated where none was. *)
Definition keys_nodup : relation Config :=
  λ c c', NoDup (tag_key <$> tags c) → NoDup (tag_key <$> tags c').

(** [m] raises nothing but exceptions that satisfy [P]. *)
Definition raises_only {A} (P : Exn → Prop) (m : M A) : Prop :=
  ∀ w e w', m w = Raise e w' → P e.

(** Nothing is saved and nothing is said. *)
Definition quiet : relation World :=
  λ w w', disk w' = disk w ∧ log w' = log w.

(** The encryption policy stays, or goes from "none" to "openpgp-sign". *)
Definition policy_steps : relation Config :=
  λ c c', crypto_policy c' = crypto_policy c ∨
          (crypto_policy c = "none" ∧ crypto_policy c' = "openpgp-sign").

(** The fields identity discovery is about are the same. *)
Definition same_identity : relation Config :=
  λ c c', profiles c' = profiles c ∧
          gpg_recipient c' = gpg_recipient c ∧
          crypto_policy c' = crypto_policy c.

(** Plugins are only appended: ones that were not listed, and that are
    named by [PLUGINS] or are the spambayes autotagger when it can be
    imported. *)
Definition plugins_grow (env : Env) : relation Config :=
  λ c c', ∃ new, sys_plugins c' = sys_plugins c ++ new ∧
                 NoDup new ∧
                 ∀ p, p ∈ new →
                      (p ∉ sys_plugins c) ∧
                      (p ∈ PLUGINS env ∨
                       (p = "autotag_sb" ∧ autotag_sb_importable env = true)).

(** Importer lists and the autotag rules that are not empty stay as they
    are. *)
Definition settings_fixed : relation Config :=
  λ c c', (vcard_gravatar c ≠ [] → vcard_gravatar c' = vcard_gravatar c) ∧
          (vcard_gpg c ≠ [] → vcard_gpg c' = vcard_gpg c) ∧
          (prefs_autotag c ≠ [] → prefs_autotag c' = prefs_autotag c).

(** An attribute that no canonical definition of the tag's key names keeps
    its value. *)
Definition attrs_kept (env : Env) : relation Config :=
  λ c c', ∀ k x attr,
    get_tag k (tags c) = Some x →
    (∀ attrs, (k, attrs) ∈ canonical_tags env → attrs !! attr = None) →
    ∃ x', get_tag k (tags c') = Some x' ∧
          tag_attrs x' !! attr = tag_attrs x !! attr.

(** The recipient is the one there was, or an accepted key of the keyring
    that can encrypt. *)
Definition recipient_from (env : Env) : relation Config :=
  λ c c', gpg_recipient c' = gpg_recipient c ∨
          ∃ details, (gpg_recipient c', details) ∈ list_secret_keys env ∧
                     revoked env details = false ∧
                     cap_encrypt details = true.

(** A profile made of the e-mail address and the name of a user identity of
    an accepted key. *)
Definition from_keyring (env : Env) (p : Profile) : Prop :=
  ∃ key details uid,
    (key, details) ∈ list_secret_keys env ∧ revoked env details = false ∧
    uid ∈ uids details ∧
    uid_email uid = Some (email p) ∧ uid_name uid = Some (name p).

(** Profiles are only appended, and only ones from the keyring. *)
Definition profiles_from (env : Env) : relation Config :=
  λ c c', ∃ new, profiles c' = profiles c ++ new ∧
                 ∀ p, p ∈ new → from_keyring env p.

(** The default rule of lines 214-220. *)
Definition default_autotag_rule : AutotagRule :=
  mkAutotag "spam" "maybespam" "spambayes" "spambayes" ["ham"].

(** What a computation returned, [d] if it raised. *)
Definition returned {A} (d : A) (o : Outcome A) : A :=
  match o with Ok a _ => a | Raise _ _ => d end.

(** The exceptions identity discovery can raise: the missing name of a user
    identity, and what formatting the recipient notice raises. *)
Definition discovery_exn (e : Exn) : Prop :=
  e = KeyError "name" ∨ e = TypeError ∨ e = ValueError.


(** A tag that is missing stays missing. *)
Definition stays_missing (k : string) : relation Config :=
  λ c c', get_tag k (tags c) = None → get_tag k (tags c') = None.



(** * Properties *)

(** ** The monad *)

Lemma bind_Ok {A B} (m : M A) (k : A → M B) w b w' :
  bind m k w = Ok b w' ↔ ∃ a w1, m w = Ok a w1 ∧ k a w1 = Ok b w'.
Proof. unfold bind. destruct (m w) as [a w1|e w1]; naive_solver. Qed.

Lemma bind_Raise {A B} (m : M A) (k : A → M B) w e w' :
  bind m k w = Raise e w' ↔
  m w = Raise e w' ∨ ∃ a w1, m w = Ok a w1 ∧ k a w1 = Raise e w'.
Proof. unfold bind. destruct (m w) as [a w1|e1 w1]; naive_solver. Qed.

Lemma for_each_app {A S} (l1 l2 : list A) (body : A → S → M S) acc w :
  for_each (l1 ++ l2) body acc w
  = bind (for_each l1 body acc) (for_each l2 body) w.
Proof.
  revert acc w. induction l1 as [|x l1 IH]; intros acc w; simpl.
  - reflexivity.
  - unfold bind. destruct (body x acc w) as [acc' w1|e w1]; [|done].
    rewrite IH. reflexivity.
Qed.

Lemma for_each_fmap {A B S} (f : A → B) (l : list A) (body : B → S → M S) acc w :
  for_each (f <$> l) body acc w = for_each l (λ x, body (f x)) acc w.
Proof.
  revert acc w. induction l as [|x l IH]; intros acc w; simpl; [done|].
  unfold bind. destruct (body (f x) acc w); [apply IH|done].
Qed.

(** ** Relations kept by a computation *)

Section Keeps.
Context (R : relation World) `{!PreOrder R}.

Lemma keeps_ret {A} (a : A) w : keeps R (ret a) w.
Proof. unfold keeps, ret; simpl. reflexivity. Qed.

Lemma keeps_raise {A} e w : keeps R (raise (A:=A) e) w.
Proof. unfold keeps, raise; simpl. reflexivity. Qed.

Lemma keeps_get {A} (k : Config → M A) w :
  keeps R (k (cfg w)) w → keeps R (bind get_config k) w.
Proof. unfold keeps, bind, get_config. done. Qed.

Lemma keeps_bind {A B} (m : M A) (k : A → M B) w :
  keeps R m w → (∀ a w1, keeps R (k a) w1) → keeps R (bind m k) w.
Proof.
  unfold keeps, bind. intros Hm Hk. destruct (m w) as [a w1|e w1]; simpl in *.
  - etrans; [exact Hm|apply Hk].
  - exact Hm.
Qed.

Lemma keeps_when b (m : M unit) w :
  (b = true → keeps R m w) → keeps R (when b m) w.
Proof. destruct b; simpl; [auto|intros _; apply keeps_ret]. Qed.

Lemma keeps_for_each {A S} (l : list A) (body : A → S → M S) :
  (∀ x acc w, keeps R (body x acc) w) →
  ∀ acc w, keeps R (for_each l body acc) w.
Proof.
  intros Hbody. induction l as [|x l IH]; intros acc w; simpl.
  - apply keeps_ret.
  - apply keeps_bind; [apply Hbody|intros; apply IH].
Qed.

Lemma keeps_for_ {A} (l : list A) (body : A → M unit) :
  (∀ x w, keeps R (body x) w) → ∀ w, keeps R (for_ l body) w.
Proof. intros Hbody w. unfold for_. apply keeps_for_each. intros; apply Hbody. Qed.
Lemma keeps_format_with env fmt key w : keeps R (format_with env fmt key) w.
Proof.
  unfold keeps, format_with, ret, raise.
  destruct (str_mod env fmt key); simpl; reflexivity.
Qed.
End Keeps.

Lemma keeps_weaken {A} (R R' : relation World) (m : M A) w :
  (∀ w1 w2, R w1 w2 → R' w1 w2) → keeps R m w → keeps R' m w.
Proof. unfold keeps. auto. Qed.

Global Instance on_cfg_preorder (Rc : relation Config) `{!PreOrder Rc} :
  PreOrder (on_cfg Rc).
Proof.
  split.
  - intros w. unfold on_cfg. reflexivity.
  - intros w1 w2 w3. unfold on_cfg. intros. by etrans.
Qed.

(** Saving and reloading at once leaves the configuration in memory as it
    is, so a relation on configurations is kept across the pair. *)
Lemma keeps_save_load {A} (Rc : relation Config) `{!PreOrder Rc} (rest : M A) w :
  (∀ w1, keeps (on_cfg Rc) rest w1) →
  keeps (on_cfg Rc) (bind config_save (λ _, bind config_load (λ _, rest))) w.
Proof.
  intros Hrest. unfold keeps, bind, config_save, config_load, on_cfg; simpl.
  apply (Hrest (mkWorld (cfg w) (cfg w) ((log w ++ [EvSave]) ++ [EvLoad]))).
Qed.

Lemma keeps_save (Rc : relation Config) `{!PreOrder Rc} w :
  keeps (on_cfg Rc) config_save w.
Proof. unfold keeps, on_cfg, config_save; simpl. reflexivity. Qed.

(** Structural steps shared by all "kept relation" proofs; [tac] closes the
    goals left at the writes. *)
Ltac keeps_step tac :=
  lazymatch goal with
  | |- keeps _ (ret _) _ => apply keeps_ret; by apply _
  | |- keeps _ (raise _) _ => apply keeps_raise; by apply _
  | |- keeps _ (bind config_save (λ _, bind config_load _)) _ =>
      apply keeps_save_load; [by apply _|intros ?]
  | |- keeps _ (bind get_config _) _ => apply keeps_get
  | |- keeps _ (bind _ _) _ => apply keeps_bind; [by apply _| |intros ? ?]
  | |- keeps _ (when _ _) _ => apply keeps_when; [by apply _|intros ?]
  | |- keeps _ (for_each _ _ _) _ =>
      apply keeps_for_each; [by apply _|intros ? ? ?]
  | |- keeps _ (for_ _ _) _ => apply keeps_for_; [by apply _|intros ? ?]
  | |- keeps _ (match ?x with _ => _ end) _ => destruct x eqn:?
  | |- keeps _ ((match ?x with _ => _ end) _) _ => destruct x eqn:?
  | |- keeps _ (modify _) _ => unfold keeps, on_cfg, modify; simpl; tac
  | |- keeps _ (emit _) _ => unfold keeps, on_cfg, emit; simpl; tac
  | |- keeps _ (format_with _ _ _) _ => apply keeps_format_with; by apply _
  | |- keeps _ (Migrate_run _ _) _ =>
      unfold keeps, on_cfg, Migrate_run, emit; simpl; tac
  | |- keeps _ open_local_mailbox _ =>
      unfold keeps, on_cfg, open_local_mailbox, emit; simpl; tac
  | |- keeps _ config_save _ => unfold keeps, on_cfg, config_save; simpl; tac
  | |- keeps _ _ _ => tac
  end.

Ltac keeps_go tac := repeat (cbv beta iota; keeps_step tac).

Global Instance only_tags_preorder : PreOrder only_tags.
Proof.
  split.
  - by intros [].
  - intros [] [] [] H1 H2; unfold only_tags, set_tags in *; simpl in *; congruence.
Qed.

Global Instance only_plugins_preorder : PreOrder only_plugins.
Proof.
  split.
  - by intros [].
  - intros [] [] [] H1 H2; unfold only_plugins, set_sys_plugins in *;
      simpl in *; congruence.
Qed.

Global Instance only_importers_preorder : PreOrder only_importers.
Proof.
  split.
  - by intros [].
  - intros [] [] [] H1 H2;
      unfold only_importers, set_vcard_gpg, set_vcard_gravatar in *;
      simpl in *; congruence.
Qed.

Global Instance only_autotag_preorder : PreOrder only_autotag.
Proof.
  split.
  - by intros [].
  - intros [] [] [] H1 H2; unfold only_autotag, set_prefs_autotag in *;
      simpl in *; congruence.
Qed.

Global Instance only_identity_preorder : PreOrder only_identity.
Proof.
  split.
  - by intros [].
  - intros [] [] [] H1 H2;
      unfold only_identity, set_crypto_policy, set_gpg_recipient, set_profiles in *;
      simpl in *; congruence.
Qed.

Global Instance only_obfuscation_preorder : PreOrder only_obfuscation.
Proof.
  split.
  - by intros [].
  - intros [] [] [] H1 H2;
      unfold only_obfuscation, set_index_encrypted, set_obfuscate_index in *;
      simpl in *; congruence.
Qed.

Global Instance ui_only_preorder : PreOrder ui_only.
Proof.
  split.
  - intros w. split; [done|]. exists []. by rewrite app_nil_r.
  - intros w1 w2 w3 [Hd1 (e1 & Hl1 & Hf1)] [Hd2 (e2 & Hl2 & Hf2)].
    split; [congruence|]. exists (e1 ++ e2). split.
    + by rewrite Hl2, Hl1, app_assoc.
    + rewrite forallb_app, Hf1, Hf2. done.
Qed.

(** ** What each stage may touch *)

Ltac by_fields :=
  intros;
  match goal with |- context [cfg ?w] => by destruct (cfg w) end.

Lemma create_standard_tags_only_tags env w :
  keeps (on_cfg only_tags) (create_standard_tags env) w.
Proof.
  unfold create_standard_tags, attribute_tags, ensure_tag, AddTag.
  keeps_go ltac:(unfold only_tags; by_fields).
Qed.

Lemma import_plugins_only_plugins env w :
  keeps (on_cfg only_plugins) (import_plugins env) w.
Proof.
  unfold import_plugins. keeps_go ltac:(unfold only_plugins; by_fields).
Qed.

Lemma enable_importers_only_importers env w :
  keeps (on_cfg only_importers) (enable_importers env) w.
Proof.
  unfold enable_importers. keeps_go ltac:(unfold only_importers; by_fields).
Qed.

Lemma setup_autotag_only_autotag w :
  keeps (on_cfg only_autotag) setup_autotag w.
Proof.
  unfold setup_autotag. keeps_go ltac:(unfold only_autotag; by_fields).
Qed.

Lemma add_profile_only_identity uid w :
  keeps (on_cfg only_identity) (add_profile uid) w.
Proof.
  unfold add_profile. keeps_go ltac:(unfold only_identity; by_fields).
Qed.

Lemma setup_key_only_identity env key details acc w :
  keeps (on_cfg only_identity) (setup_key env key details acc) w.
Proof.
  unfold setup_key.
  keeps_go ltac:(first [apply add_profile_only_identity
                       |unfold only_identity; by_fields]).
Qed.

Lemma discover_keys_only_identity env w :
  keeps (on_cfg only_identity) (discover_keys env) w.
Proof.
  unfold discover_keys.
  keeps_go ltac:(first [apply setup_key_only_identity
                       |unfold only_identity; by_fields]).
Qed.

Lemma obfuscate_only_obfuscation env rnd w :
  keeps (on_cfg only_obfuscation) (obfuscate env rnd) w.
Proof.
  unfold obfuscate. keeps_go ltac:(unfold only_obfuscation; by_fields).
Qed.

(** ** What each stage says and saves: nothing but messages *)

Ltac by_ui :=
  intros; split; [done|];
  first [ by (exists []; rewrite app_nil_r) | by (eexists [_]) ].

Lemma create_standard_tags_ui env w : keeps ui_only (create_standard_tags env) w.
Proof.
  unfold create_standard_tags, attribute_tags, ensure_tag, AddTag.
  keeps_go ltac:(unfold ui_only; by_ui).
Qed.

Lemma import_plugins_ui env w : keeps ui_only (import_plugins env) w.
Proof. unfold import_plugins. keeps_go ltac:(unfold ui_only; by_ui). Qed.

Lemma enable_importers_ui env w : keeps ui_only (enable_importers env) w.
Proof. unfold enable_importers. keeps_go ltac:(unfold ui_only; by_ui). Qed.

Lemma setup_autotag_ui w : keeps ui_only setup_autotag w.
Proof. unfold setup_autotag. keeps_go ltac:(unfold ui_only; by_ui). Qed.

Lemma discover_keys_ui env w : keeps ui_only (discover_keys env) w.
Proof.
  unfold discover_keys, setup_key, add_profile.
  keeps_go ltac:(unfold ui_only; by_ui).
Qed.

Lemma obfuscate_ui env rnd w : keeps ui_only (obfuscate env rnd) w.
Proof. unfold obfuscate. keeps_go ltac:(unfold ui_only; by_ui). Qed.

(** ** The stages of a successful run *)

(** The notice about created tags changes the log only. *)
Lemma created_notice_Ok env (created : list string) w u w' :
  when (bool_decide ("New" ∈ created))
    (emit (EvNotify (gettext env "Created default tags"))) w = Ok u w' →
  cfg w' = cfg w ∧ disk w' = disk w ∧
  log w' = log w ++ (if bool_decide ("New" ∈ created)
                     then [EvNotify (gettext env "Created default tags")]
                     else []).
Proof.
  destruct (bool_decide ("New" ∈ created)); simpl; unfold emit, ret;
    intros ?; simplify_eq; simpl; by rewrite ?app_nil_r.
Qed.

(** A run that returns went through every stage, in this order. *)
Lemma setup_body_Ok env rnd w r w' :
  setup_body env rnd w = Ok r w' →
  ∃ created w1 w1' w2 w3 w4 w5 w6,
    create_standard_tags env
      (mkWorld (cfg w) (disk w)
         ((log w ++ [EvMigrate true false]) ++ [EvOpenLocalMailbox]))
      = Ok created w1 ∧
    (cfg w1' = cfg w1 ∧ disk w1' = disk w1 ∧
     log w1' = log w1 ++ (if bool_decide ("New" ∈ created)
                          then [EvNotify (gettext env "Created default tags")]
                          else [])) ∧
    import_plugins env w1' = Ok () w2 ∧
    enable_importers env
      (mkWorld (cfg w2) (cfg w2) ((log w2 ++ [EvSave]) ++ [EvLoad]))
      = Ok () w3 ∧
    setup_autotag w3 = Ok () w4 ∧
    discover_keys env w4 = Ok () w5 ∧
    obfuscate env rnd w5 = Ok () w6 ∧
    w' = mkWorld (cfg w6) (cfg w6)
           ((log w6 ++ [EvMigrate false true]) ++ [EvSave]) ∧
    r = Success (gettext env "Performed initial Mailpile setup").
Proof.
  unfold setup_body. intros H.
  apply bind_Ok in H as ([] & wa & Ha & H). injection Ha as <-.
  apply bind_Ok in H as ([] & wb & Hb & H). injection Hb as <-.
  apply bind_Ok in H as (created & w1 & Htags & H).
  apply bind_Ok in H as ([] & w1' & Hnotice & H).
  apply created_notice_Ok in Hnotice.
  apply bind_Ok in H as ([] & w2 & Hplug & H).
  apply bind_Ok in H as ([] & wc & Hc & H). injection Hc as <-.
  apply bind_Ok in H as ([] & wd & Hd & H). injection Hd as <-.
  apply bind_Ok in H as ([] & w3 & Himp & H).
  apply bind_Ok in H as ([] & w4 & Hauto & H).
  apply bind_Ok in H as ([] & w5 & Hdisc & H).
  apply bind_Ok in H as ([] & w6 & Hobf & H).
  apply bind_Ok in H as ([] & we & He & H). injection He as <-.
  apply bind_Ok in H as ([] & wf & Hf & H). injection Hf as <-.
  injection H as <- <-.
  exists created, w1, w1', w2, w3, w4, w5, w6. simpl in *. done.
Qed.

Lemma command_unlocked env rnd w :
  sys_lockdown (cfg w) = false → command env rnd w = setup_body env rnd w.
Proof. intros H. unfold command, bind, get_config. by rewrite H. Qed.

Lemma command_locked env rnd w :
  sys_lockdown (cfg w) = true →
  command env rnd w = Ok (Error (gettext env "In lockdown, doing nothing.")) w.
Proof. intros H. unfold command, bind, get_config. by rewrite H. Qed.

(** A run that reports success was not in lockdown. *)
Lemma command_Success env rnd w msg w' :
  command env rnd w = Ok (Success msg) w' →
  sys_lockdown (cfg w) = false ∧ setup_body env rnd w = Ok (Success msg) w'.
Proof.
  destruct (sys_lockdown (cfg w)) eqn:Hl.
  - rewrite command_locked by done. discriminate.
  - rewrite command_unlocked by done. done.
Qed.

(** ** Lockdown *)

(** C5: with [sys.lockdown] set the command returns an error result and the
    world it ends in is the world it started from: the configuration in
    memory (tags, profiles, plugins, importers, encryption policy,
    obfuscation fields), the saved configuration and the event log are all
    unchanged. *)
Theorem lockdown_does_nothing env rnd w :
  sys_lockdown (cfg w) = true →
  command env rnd w = Ok (Error (gettext env "In lockdown, doing nothing.")) w.
Proof. intros H. unfold command, bind, get_config, ret. by rewrite H. Qed.

Lemma lockdown_does_nothing_witness :
  sys_lockdown (cfg locked_world) = true ∧
  command sample_env sample_rnd locked_world
  = Ok (Error "In lockdown, doing nothing.") locked_world.
Proof.
  split; [reflexivity|].
  apply (lockdown_does_nothing sample_env sample_rnd locked_world). reflexivity.
Defined.

(** ** Where the configuration is saved *)

Lemma filter_ui_only evs :
  forallb is_ui evs = true → List.filter (λ e, negb (is_ui e)) evs = [].
Proof.
  induction evs as [|e evs IH]; simpl; [done|].
  destruct (is_ui e); simpl; [auto|done].
Qed.

Lemma ui_only_Ok {A} (m : M A) w a w' :
  keeps ui_only m w → m w = Ok a w' →
  disk w' = disk w ∧ ∃ evs, log w' = log w ++ evs ∧ forallb is_ui evs = true.
Proof. unfold keeps. intros H Heq. by rewrite Heq in H. Qed.

(** The worlds between the stages of a run that returns, with the two
    saves where the command has them. *)
Lemma setup_body_saves env rnd w r w' :
  setup_body env rnd w = Ok r w' →
  ∃ created w1 w1' w2 w3 w4 w5 w6,
    create_standard_tags env
      (mkWorld (cfg w) (disk w)
         (log w ++ [EvMigrate true false; EvOpenLocalMailbox]))
    = Ok created w1 ∧
    when (bool_decide ("New" ∈ created))
      (emit (EvNotify (gettext env "Created default tags"))) w1 = Ok () w1' ∧
    import_plugins env w1' = Ok () w2 ∧
    enable_importers env (mkWorld (cfg w2) (cfg w2) (log w2 ++ [EvSave; EvLoad]))
    = Ok () w3 ∧
    setup_autotag w3 = Ok () w4 ∧
    discover_keys env w4 = Ok () w5 ∧
    obfuscate env rnd w5 = Ok () w6 ∧
    w' = mkWorld (cfg w6) (cfg w6) (log w6 ++ [EvMigrate false true; EvSave]).
Proof.
  unfold setup_body. intros H.
  apply bind_Ok in H as ([] & wa & Ha & H). injection Ha as <-.
  apply bind_Ok in H as ([] & wb & Hb & H). injection Hb as <-.
  apply bind_Ok in H as (created & w1 & Htags & H).
  apply bind_Ok in H as ([] & w1' & Hnotice & H).
  apply bind_Ok in H as ([] & w2 & Hplug & H).
  apply bind_Ok in H as ([] & wc & Hc & H). injection Hc as <-.
  apply bind_Ok in H as ([] & wd & Hd & H). injection Hd as <-.
  apply bind_Ok in H as ([] & w3 & Himp & H).
  apply bind_Ok in H as ([] & w4 & Hauto & H).
  apply bind_Ok in H as ([] & w5 & Hdisc & H).
  apply bind_Ok in H as ([] & w6 & Hobf & H).
  apply bind_Ok in H as ([] & we & He & H). injection He as <-.
  apply bind_Ok in H as ([] & wf & Hf & H). injection Hf as <-.
  injection H as <- <-.
  exists created, w1, w1', w2, w3, w4, w5, w6. simpl in *.
  rewrite <- !app_assoc in *. simpl in *. done.
Qed.

(** C9, as the code has it: a successful run saves the configuration twice.
    (1) At the end the saved configuration is the one in memory.  (2) The
    calls of collaborators in the log are, in order: pre-migration, mailbox,
    save, reload, post-migration, save.  (3) The first save comes right
    after the plugin stage: the tag stage, the notice about created tags and
    the plugin stage run one after the other from the world after the
    mailbox call, and nothing is saved up to there; the configuration they
    leave is then saved and reloaded, and it is from that saved and reloaded
    world that the importer, autotag, identity-discovery and obfuscation
    stages run, none of which saves; the run ends with the post-migration
    call and the second save, which no reload follows. *)
Theorem persist_points env rnd w msg w' :
  command env rnd w = Ok (Success msg) w' →
  disk w' = cfg w' ∧
  (∃ evs, log w' = log w ++ evs ∧
          List.filter (λ e, negb (is_ui e)) evs
          = [EvMigrate true false; EvOpenLocalMailbox; EvSave; EvLoad;
             EvMigrate false true; EvSave]) ∧
  ∃ created w1 w1' w2 w6,
    create_standard_tags env
      (mkWorld (cfg w) (disk w)
         (log w ++ [EvMigrate true false; EvOpenLocalMailbox]))
    = Ok created w1 ∧
    when (bool_decide ("New" ∈ created))
      (emit (EvNotify (gettext env "Created default tags"))) w1 = Ok () w1' ∧
    import_plugins env w1' = Ok () w2 ∧
    disk w2 = disk w ∧
    (enable_importers env ;;; setup_autotag ;;; discover_keys env ;;;
     obfuscate env rnd)
      (mkWorld (cfg w2) (cfg w2) (log w2 ++ [EvSave; EvLoad]))
    = Ok () w6 ∧
    disk w6 = cfg w2 ∧
    w' = mkWorld (cfg w6) (cfg w6) (log w6 ++ [EvMigrate false true; EvSave]).
Proof.
  intros H. apply command_Success in H as [_ H].
  apply setup_body_saves in H
    as (created & w1 & w1' & w2 & w3 & w4 & w5 & w6
        & Htags & Hnotice & Hplug & Himp & Hauto & Hdisc & Hobf & ->).
  pose proof (created_notice_Ok _ _ _ _ _ Hnotice) as (_ & Hd1 & Hl1).
  pose proof (ui_only_Ok _ _ _ _ (create_standard_tags_ui _ _) Htags)
    as [Hdt (e1 & Hlog1 & Hf1)].
  pose proof (ui_only_Ok _ _ _ _ (import_plugins_ui _ _) Hplug)
    as [Hdp (e2 & Hlog2 & Hf2)].
  pose proof (ui_only_Ok _ _ _ _ (enable_importers_ui _ _) Himp)
    as [Hdi (e3 & Hlog3 & Hf3)].
  pose proof (ui_only_Ok _ _ _ _ (setup_autotag_ui _) Hauto)
    as [Hda (e4 & Hlog4 & Hf4)].
  pose proof (ui_only_Ok _ _ _ _ (discover_keys_ui _ _) Hdisc)
    as [Hdd (e5 & Hlog5 & Hf5)].
  pose proof (ui_only_Ok _ _ _ _ (obfuscate_ui _ _ _) Hobf)
    as [Hdo (e6 & Hlog6 & Hf6)].
  simpl in *.
  split; [done|]. split.
  - set (n := if bool_decide ("New" ∈ created)
              then [EvNotify (gettext env "Created default tags")] else []) in *.
    assert (Hn : forallb is_ui n = true) by (subst n; by case_bool_decide).
    exists ([EvMigrate true false; EvOpenLocalMailbox] ++ e1 ++ n ++ e2
            ++ [EvSave; EvLoad] ++ e3 ++ e4 ++ e5 ++ e6
            ++ [EvMigrate false true; EvSave]).
    split.
    + rewrite Hlog6, Hlog5, Hlog4, Hlog3, Hlog2, Hl1, Hlog1.
      rewrite <- !app_assoc. reflexivity.
    + rewrite !List.filter_app.
      rewrite (filter_ui_only e1), (filter_ui_only n), (filter_ui_only e2),
        (filter_ui_only e3), (filter_ui_only e4), (filter_ui_only e5),
        (filter_ui_only e6) by done.
      reflexivity.
  - exists created, w1, w1', w2, w6. split_and!; [done..| | | |done].
    + congruence.
    + apply bind_Ok. exists (), w3. split; [done|].
      apply bind_Ok. exists (), w4. split; [done|].
      apply bind_Ok. exists (), w5. by split.
    + congruence.
Qed.

Lemma persist_points_witness :
  command sample_env sample_rnd fresh_world
  = Ok (Success "Performed initial Mailpile setup") first_run_world ∧
  disk first_run_world = cfg first_run_world ∧
  (∃ evs, log first_run_world = log fresh_world ++ evs ∧
          List.filter (λ e, negb (is_ui e)) evs
          = [EvMigrate true false; EvOpenLocalMailbox; EvSave; EvLoad;
             EvMigrate false true; EvSave]) ∧
  ∃ created w1 w1' w2 w6,
    create_standard_tags sample_env
      (mkWorld (cfg fresh_world) (disk fresh_world)
         (log fresh_world ++ [EvMigrate true false; EvOpenLocalMailbox]))
    = Ok created w1 ∧
    when (bool_decide ("New" ∈ created))
      (emit (EvNotify (gettext sample_env "Created default tags"))) w1
    = Ok () w1' ∧
    import_plugins sample_env w1' = Ok () w2 ∧
    disk w2 = disk fresh_world ∧
    (enable_importers sample_env ;;; setup_autotag ;;;
     discover_keys sample_env ;;; obfuscate sample_env sample_rnd)
      (mkWorld (cfg w2) (cfg w2) (log w2 ++ [EvSave; EvLoad]))
    = Ok () w6 ∧
    disk w6 = cfg w2 ∧
    first_run_world
    = mkWorld (cfg w6) (cfg w6) (log w6 ++ [EvMigrate false true; EvSave]).
Proof.
  assert (H : command sample_env sample_rnd fresh_world
              = Ok (Success "Performed initial Mailpile setup") first_run_world)
    by (vm_compute; reflexivity).
  split; [exact H|].
  exact (persist_points sample_env sample_rnd fresh_world _ first_run_world H).
Defined.

(** C9, as the claim states it, fails on a fresh installation: the run
    saves twice, and the log does not end with a save followed by a reload
    that no other save precedes. *)
Lemma persist_single_point_cex :
  command sample_env sample_rnd fresh_world
  = Ok (Success "Performed initial Mailpile setup") first_run_world ∧
  List.count_occ Event_eq_dec (log first_run_world) EvSave = 2%nat ∧
  ¬ ∃ pre, log first_run_world = pre ++ [EvSave; EvLoad] ∧ EvSave ∉ pre.
Proof.
  split; [by vm_compute|]. split; [by vm_compute|].
  intros (pre & Hlog & _).
  assert (Hlast : last (log first_run_world) = Some EvSave) by (by vm_compute).
  rewrite Hlog in Hlast.
  change (pre ++ [EvSave; EvLoad]) with (pre ++ [EvSave] ++ [EvLoad]) in Hlast.
  rewrite app_assoc, last_snoc in Hlast. discriminate.
Qed.

(** ** Relations kept by the whole command *)

Lemma keeps_frame {A} (F Rc : relation Config) (m : M A) w :
  keeps (on_cfg F) m w → (∀ c c', F c c' → Rc c c') → keeps (on_cfg Rc) m w.
Proof. unfold keeps, on_cfg. auto. Qed.

(** A relation that the tag, plugin, importer and autotag stages cannot
    break (because it does not look at what they touch) and that the two
    remaining stages keep, is kept by the command. *)
Lemma command_keeps (Rc : relation Config) `{!PreOrder Rc} env rnd :
  (∀ c c', only_tags c c' → Rc c c') →
  (∀ c c', only_plugins c c' → Rc c c') →
  (∀ c c', only_importers c c' → Rc c c') →
  (∀ c c', only_autotag c c' → Rc c c') →
  (∀ w, keeps (on_cfg Rc) (discover_keys env) w) →
  (∀ w, keeps (on_cfg Rc) (obfuscate env rnd) w) →
  ∀ w, keeps (on_cfg Rc) (command env rnd) w.
Proof.
  intros Ht Hp Hi Ha Hd Ho w. unfold command, setup_body.
  keeps_go ltac:(first
    [ apply Hd | apply Ho | reflexivity
    | eapply keeps_frame; [apply create_standard_tags_only_tags|exact Ht]
    | eapply keeps_frame; [apply import_plugins_only_plugins|exact Hp]
    | eapply keeps_frame; [apply enable_importers_only_importers|exact Hi]
    | eapply keeps_frame; [apply setup_autotag_only_autotag|exact Ha] ]).
Qed.

(** ** Profiles *)

Lemma profiles_grow_same c c' : profiles c' = profiles c → profiles_grow c c'.
Proof.
  intros H. exists []. rewrite app_nil_r. split; [done|]. split; [constructor|].
  intros e He. by apply elem_of_nil in He.
Qed.

Global Instance profiles_grow_preorder : PreOrder profiles_grow.
Proof.
  split.
  - intros c. by apply profiles_grow_same.
  - intros c1 c2 c3 (n1 & H1 & Hnd1 & Hnew1) (n2 & H2 & Hnd2 & Hnew2).
    exists (n1 ++ n2). split; [by rewrite H2, H1, app_assoc|].
    rewrite fmap_app. split.
    + apply NoDup_app. split; [done|]. split; [|done].
      intros e He1 He2. apply Hnew2 in He2 as [_ Hnot]. apply Hnot.
      rewrite H1, fmap_app. apply elem_of_app. by right.
    + intros e [He|He]%elem_of_app; [by apply Hnew1|].
      apply Hnew2 in He as [Hne Hnot]. split; [done|].
      intros Hin. apply Hnot. rewrite H1, fmap_app. apply elem_of_app. by left.
Qed.

Lemma profiles_grow_NoDup c c' :
  profiles_grow c c' →
  NoDup (email <$> profiles c) → NoDup (email <$> profiles c').
Proof.
  intros (new & -> & Hnd & Hnew) Hold. rewrite fmap_app.
  apply NoDup_app. split; [done|]. split; [|done].
  intros e He Hin. by apply Hnew in Hin as [_ Hnot].
Qed.

Lemma add_profile_profiles_grow uid w :
  keeps (on_cfg profiles_grow) (add_profile uid) w.
Proof.
  unfold add_profile.
  keeps_go ltac:(idtac).
  exists [mkProfile s s0]. simpl. split; [done|]. split.
  - apply NoDup_singleton.
  - intros e ->%list_elem_of_singleton. done.
Qed.

Lemma discover_keys_profiles_grow env w :
  keeps (on_cfg profiles_grow) (discover_keys env) w.
Proof.
  unfold discover_keys, setup_key.
  keeps_go ltac:(first [apply add_profile_profiles_grow
                       |by apply profiles_grow_same]).
Qed.

Lemma command_profiles_grow env rnd w :
  keeps (on_cfg profiles_grow) (command env rnd) w.
Proof.
  apply command_keeps; try apply _;
    try (intros c c' ->; by apply profiles_grow_same).
  - apply discover_keys_profiles_grow.
  - intros w1. eapply keeps_frame; [apply obfuscate_only_obfuscation|].
    intros c c' ->; by apply profiles_grow_same.
Qed.

(** C7: whatever the outcome of a run (success, lockdown error or an
    exception), the profile list it ends with is the one it started with
    followed by new profiles; the new profiles have pairwise different,
    non-empty e-mail addresses that no earlier profile had; so a list with
    at most one profile per address stays such a list, and no existing
    profile is changed or removed. *)
Theorem profiles_only_appended env rnd w :
  ∃ new,
    profiles (cfg (final (command env rnd w))) = profiles (cfg w) ++ new ∧
    NoDup (email <$> new) ∧
    (∀ p, p ∈ new → email p ≠ "" ∧ email p ∉ email <$> profiles (cfg w)) ∧
    (NoDup (email <$> profiles (cfg w)) →
     NoDup (email <$> profiles (cfg (final (command env rnd w))))).
Proof.
  pose proof (command_profiles_grow env rnd w) as Hgrow.
  unfold keeps, on_cfg in Hgrow.
  pose proof (profiles_grow_NoDup _ _ Hgrow) as Hnd.
  destruct Hgrow as (new & Heq & Hnew & Hfresh).
  exists new. repeat split; try done.
  - by apply (Hfresh (email p)), list_elem_of_fmap_2.
  - by apply (Hfresh (email p)), list_elem_of_fmap_2.
Qed.

(** ** The stages around identity discovery *)

Lemma keeps_Ok {A} (R : relation World) (m : M A) w a w' :
  keeps R m w → m w = Ok a w' → R w w'.
Proof. unfold keeps. intros H Heq. by rewrite Heq in H. Qed.

(** The stages before identity discovery leave the profiles, the
    encryption policy and the obfuscation fields alone; the stages after
    obfuscation leave everything alone. *)
Lemma setup_body_identity env rnd w r w' :
  setup_body env rnd w = Ok r w' →
  ∃ w4 w5 w6,
    (profiles (cfg w4) = profiles (cfg w) ∧
     gpg_recipient (cfg w4) = gpg_recipient (cfg w) ∧
     crypto_policy (cfg w4) = crypto_policy (cfg w) ∧
     obfuscate_index (cfg w4) = obfuscate_index (cfg w) ∧
     index_encrypted (cfg w4) = index_encrypted (cfg w)) ∧
    discover_keys env w4 = Ok () w5 ∧
    obfuscate env rnd w5 = Ok () w6 ∧
    cfg w' = cfg w6 ∧ disk w' = cfg w6.
Proof.
  intros H. apply setup_body_Ok in H
    as (created & w1 & w1' & w2 & w3 & w4 & w5 & w6
        & Htags & (Hc1 & _ & _) & Hplug & Himp & Hauto & Hdisc & Hobf
        & -> & _).
  exists w4, w5, w6. split; [|done].
  apply (keeps_Ok _ _ _ _ _ (create_standard_tags_only_tags _ _)) in Htags.
  apply (keeps_Ok _ _ _ _ _ (import_plugins_only_plugins _ _)) in Hplug.
  apply (keeps_Ok _ _ _ _ _ (enable_importers_only_importers _ _)) in Himp.
  apply (keeps_Ok _ _ _ _ _ (setup_autotag_only_autotag _)) in Hauto.
  unfold on_cfg in *. simpl in *.
  rewrite Hauto, Himp, Hplug, Hc1, Htags. simpl. done.
Qed.

(** ** The recipient key *)

Global Instance recipient_fixed_preorder : PreOrder recipient_fixed.
Proof.
  split.
  - by intros c.
  - intros c1 c2 c3 H1 H2 Hne. unfold recipient_fixed in *.
    rewrite H2; rewrite H1; done.
Qed.

Lemma recipient_fixed_same c c' :
  gpg_recipient c' = gpg_recipient c → recipient_fixed c c'.
Proof. by intros H _. Qed.

Lemma str_truthy_false s : str_truthy s = false ↔ s = "".
Proof. by destruct s. Qed.

Lemma str_truthy_true s : str_truthy s = true ↔ s ≠ "".
Proof. by destruct s. Qed.

Lemma setup_key_recipient_fixed env key details acc w :
  keeps (on_cfg recipient_fixed) (setup_key env key details acc) w.
Proof.
  unfold setup_key, add_profile.
  keeps_go ltac:(first [by apply recipient_fixed_same|idtac]).
  intros Hne. apply andb_true_iff in H as [H _].
  apply negb_true_iff, str_truthy_false in H. done.
Qed.

Lemma discover_keys_recipient_fixed env w :
  keeps (on_cfg recipient_fixed) (discover_keys env) w.
Proof.
  unfold discover_keys.
  keeps_go ltac:(first [apply setup_key_recipient_fixed
                       |by apply recipient_fixed_same]).
Qed.

Lemma command_recipient_fixed env rnd w :
  keeps (on_cfg recipient_fixed) (command env rnd) w.
Proof.
  apply command_keeps; try apply _;
    try (intros c c' ->; by apply recipient_fixed_same).
  - apply discover_keys_recipient_fixed.
  - intros w1. eapply keeps_frame; [apply obfuscate_only_obfuscation|].
    intros c c' ->; by apply recipient_fixed_same.
Qed.

Global Instance same_on_preorder {B} (f : Config → B) : PreOrder (same_on f).
Proof.
  split.
  - by intros c.
  - intros c1 c2 c3 H1 H2. unfold same_on in *. congruence.
Qed.

Lemma add_profiles_same_recipient us w :
  keeps (on_cfg (same_on gpg_recipient)) (for_ us add_profile) w.
Proof. unfold add_profile. keeps_go ltac:(by unfold same_on). Qed.

(** An accepted key with the encrypt capability becomes the recipient when
    there is none yet. *)
Lemma setup_key_sets_recipient env key details acc w acc' w' :
  revoked env details = false → cap_encrypt details = true →
  gpg_recipient (cfg w) = "" →
  setup_key env key details acc w = Ok acc' w' →
  gpg_recipient (cfg w') = key.
Proof.
  intros Hrev Hcap Hnone. unfold setup_key. rewrite Hrev. intros H.
  apply bind_Ok in H as ([] & wu & Hu & H).
  apply (keeps_Ok _ _ _ _ _ (add_profiles_same_recipient _ _)) in Hu.
  unfold on_cfg, same_on in Hu. rewrite Hnone in Hu.
  revert H. unfold bind, get_config, when, modify, emit, ret, format_with, raise.
  rewrite Hu, Hcap. simpl.
  destruct (str_mod env _ key); simpl; [|done..].
  destruct (bool_decide (crypto_policy (cfg wu) = "none")); simpl;
    intros ?; by simplify_eq.
Qed.

(** C3: (1) when the keyring is available, the first enumerated key is
    neither revoked nor without the encrypt capability, its key id is not
    the empty string, and no recipient is set at the start, a run that
    returns leaves [gpg_recipient] at that first key, whatever keys follow
    it; (2) when a recipient is set at the start, the run ends with the same
    recipient, whatever its outcome. *)
Theorem first_recipient_wins env rnd w :
  (∀ keyA detailsA rest r w',
     gnupg_is_available env = true →
     list_secret_keys env = (keyA, detailsA) :: rest →
     revoked env detailsA = false → cap_encrypt detailsA = true →
     keyA ≠ "" →
     sys_lockdown (cfg w) = false → gpg_recipient (cfg w) = "" →
     command env rnd w = Ok r w' →
     gpg_recipient (cfg w') = keyA) ∧
  (gpg_recipient (cfg w) ≠ "" →
   gpg_recipient (cfg (final (command env rnd w))) = gpg_recipient (cfg w)).
Proof.
  split.
  - intros keyA detailsA rest r w' Havail Hkeys Hrev Hcap HkeyA Hlock Hnone H.
    rewrite command_unlocked in H by done.
    apply setup_body_identity in H
      as (w4 & w5 & w6 & (_ & Hr4 & _) & Hdisc & Hobf & Hcfg & _).
    rewrite Hcfg.
    apply (keeps_Ok _ _ _ _ _ (obfuscate_only_obfuscation _ _ _)) in Hobf.
    unfold on_cfg in Hobf. rewrite Hobf. simpl.
    unfold discover_keys in Hdisc. rewrite Havail, Hkeys in Hdisc.
    apply bind_Ok in Hdisc as (acc & w5' & Hloop & Hret).
    injection Hret as <-. simpl in Hloop.
    apply bind_Ok in Hloop as (acc1 & wk & Hkey & Hrest).
    apply setup_key_sets_recipient in Hkey; [|done|done|congruence].
    assert (Hfix : keeps (on_cfg recipient_fixed)
              (for_each rest
                 (λ '(key, details) accepted_keys,
                    setup_key env key details accepted_keys) acc1) wk).
    { apply keeps_for_each; [apply _|]. intros [k d] a w0.
      apply setup_key_recipient_fixed. }
    apply (keeps_Ok _ _ _ _ _ Hfix) in Hrest.
    unfold on_cfg, recipient_fixed in Hrest. rewrite Hrest; congruence.
  - intros Hset. by apply (command_recipient_fixed env rnd w).
Qed.

Lemma first_recipient_wins_witness :
  gpg_recipient (cfg first_run_world) = "KEYA" ∧
  gpg_recipient (cfg (final (command swapped_env other_rnd first_run_world)))
  = gpg_recipient (cfg first_run_world).
Proof.
  split.
  - apply (proj1 (first_recipient_wins sample_env sample_rnd fresh_world)
             "KEYA" (mkKey None [mkUid (Some "alice@example.com") (Some "Alice")] true)
             [("KEYB", mkKey None [mkUid (Some "bob@example.com") (Some "Bob")] true)]
             (Success "Performed initial Mailpile setup") first_run_world).
    + reflexivity.
    + reflexivity.
    + reflexivity.
    + reflexivity.
    + discriminate.
    + reflexivity.
    + reflexivity.
    + vm_compute; reflexivity.
  - apply (proj2 (first_recipient_wins swapped_env other_rnd first_run_world)).
    vm_compute. discriminate.
Defined.

(** ** The obfuscation decision *)

Global Instance obfuscation_fixed_preorder : PreOrder obfuscation_fixed.
Proof.
  split.
  - by intros c.
  - intros c1 c2 c3 H1 H2 Hne. unfold obfuscation_fixed in *.
    destruct (H1 Hne) as [Ho1 Hi1].
    destruct H2 as [Ho2 Hi2]; [congruence|]. split; congruence.
Qed.

Lemma obfuscation_fixed_same c c' :
  obfuscate_index c' = obfuscate_index c →
  index_encrypted c' = index_encrypted c → obfuscation_fixed c c'.
Proof. by intros H1 H2 _. Qed.

(** What the obfuscation stage does, in one equation. *)
Lemma obfuscate_eq env rnd w :
  obfuscate env rnd w
  = if str_truthy (gpg_recipient (cfg w)) && negb (idx_INDEX env)
       && negb (str_truthy (obfuscate_index (cfg w)))
    then Ok () (mkWorld
                  (set_index_encrypted true
                     (set_obfuscate_index
                        (sha512b64 env (urandom_1024 rnd) (gpg_recipient (cfg w))
                           (time_time rnd)) (cfg w)))
                  (disk w)
                  (log w ++ [EvNotify (gettext env
         "Obfuscating search index and enabling indexing of encrypted e-mail. ")]))
    else Ok () w.
Proof.
  unfold obfuscate, bind, get_config, when, modify, emit, ret.
  by destruct (_ && _).
Qed.

Lemma obfuscate_obfuscation_fixed env rnd w :
  keeps (on_cfg obfuscation_fixed) (obfuscate env rnd) w.
Proof.
  unfold keeps, on_cfg. rewrite obfuscate_eq.
  destruct (_ && _) eqn:Hcond; simpl; [|done].
  intros Hne. apply andb_true_iff in Hcond as [_ Hcond].
  apply negb_true_iff, str_truthy_false in Hcond. done.
Qed.

Lemma command_obfuscation_fixed env rnd w :
  keeps (on_cfg obfuscation_fixed) (command env rnd) w.
Proof.
  apply command_keeps; try apply _;
    try (intros c c' ->; by apply obfuscation_fixed_same).
  - intros w1. eapply keeps_frame; [apply discover_keys_only_identity|].
    intros c c' ->; by apply obfuscation_fixed_same.
  - apply obfuscate_obfuscation_fixed.
Qed.

Lemma run_all_obfuscation_fixed runs w :
  obfuscation_fixed (cfg w) (cfg (run_all runs w)).
Proof.
  revert w. induction runs as [|[env rnd] runs IH]; intros w; simpl.
  - reflexivity.
  - etrans; [apply (command_obfuscation_fixed env rnd w)|apply IH].
Qed.

(** C2: (1) in a run that is not in lockdown and returns, the obfuscation
    assignment happens exactly under the three conditions: if after identity
    discovery (that is, at the end of the run) a recipient is set, the index
    is not loaded and no salt was set at the start, then the salt is the
    digest of the random block, the recipient and the time, and
    [index_encrypted] is true; otherwise both fields are as they were.
    (2) As long as the digest is never the empty string, the salt so set is
    not empty.  (3) Once the salt is not empty, no sequence of further
    runs, whatever their surroundings and outcomes, changes the salt or
    the flag. *)
Theorem obfuscation_decided_once env rnd w :
  (∀ r w',
     sys_lockdown (cfg w) = false → command env rnd w = Ok r w' →
     (gpg_recipient (cfg w') ≠ "" ∧ idx_INDEX env = false ∧
      obfuscate_index (cfg w) = "" →
      obfuscate_index (cfg w')
      = sha512b64 env (urandom_1024 rnd) (gpg_recipient (cfg w')) (time_time rnd) ∧
      index_encrypted (cfg w') = true ∧
      ((∀ a b c, sha512b64 env a b c ≠ "") → obfuscate_index (cfg w') ≠ "")) ∧
     (¬ (gpg_recipient (cfg w') ≠ "" ∧ idx_INDEX env = false ∧
         obfuscate_index (cfg w) = "") →
      obfuscate_index (cfg w') = obfuscate_index (cfg w) ∧
      index_encrypted (cfg w') = index_encrypted (cfg w))) ∧
  (∀ runs,
     obfuscate_index (cfg w) ≠ "" →
     obfuscate_index (cfg (run_all runs w)) = obfuscate_index (cfg w) ∧
     index_encrypted (cfg (run_all runs w)) = index_encrypted (cfg w)).
Proof.
  split; [|intros runs; apply run_all_obfuscation_fixed].
  intros r w' Hlock H. rewrite command_unlocked in H by done.
  apply setup_body_identity in H
    as (w4 & w5 & w6 & (_ & _ & _ & Ho4 & Hi4) & Hdisc & Hobf & Hcfg & _).
  apply (keeps_Ok _ _ _ _ _ (discover_keys_only_identity _ _)) in Hdisc.
  unfold on_cfg in Hdisc.
  assert (Ho5 : obfuscate_index (cfg w5) = obfuscate_index (cfg w))
    by (rewrite Hdisc; simpl; done).
  assert (Hi5 : index_encrypted (cfg w5) = index_encrypted (cfg w))
    by (rewrite Hdisc; simpl; done).
  clear Hdisc Ho4 Hi4.
  rewrite obfuscate_eq in Hobf. rewrite Hcfg. clear Hcfg.
  destruct (_ && _) eqn:Hcond in Hobf; injection Hobf as <-; simpl.
  - apply andb_true_iff in Hcond as [[Hr Hidx]%andb_true_iff Ho].
    apply str_truthy_true in Hr. apply negb_true_iff in Hidx.
    apply negb_true_iff, str_truthy_false in Ho.
    split; [|intros Hnot; exfalso; apply Hnot; split_and!; congruence].
    intros _. split_and!; [done..|]. intros Hsha. apply Hsha.
  - split; [|done].
    intros (Hr & Hidx & Ho).
    apply str_truthy_true in Hr. apply str_truthy_false in Ho.
    rewrite <- Ho5 in Ho. rewrite Hr, Hidx, Ho in Hcond. discriminate.
Qed.

Lemma obfuscation_decided_once_witness :
  (obfuscate_index (cfg first_run_world) = "digest:KEYA:1700000000.0" ∧
   index_encrypted (cfg first_run_world) = true ∧
   obfuscate_index (cfg first_run_world) ≠ "") ∧
  obfuscate_index
    (cfg (run_all [(swapped_env, other_rnd); (sample_env, other_rnd)]
            first_run_world))
  = "digest:KEYA:1700000000.0".
Proof.
  split.
  - destruct (proj1 (obfuscation_decided_once sample_env sample_rnd fresh_world)
                (Success "Performed initial Mailpile setup") first_run_world)
      as [Hset _]; [reflexivity|vm_compute; reflexivity|].
    destruct Hset as (Ho & Hi & Hne).
    + split_and!; [vm_compute; discriminate|reflexivity|reflexivity].
    + split_and!; [rewrite Ho; vm_compute; reflexivity|exact Hi|].
      apply Hne. intros a b c. unfold sample_env, sample_digest. simpl.
      discriminate.
  - destruct (proj2 (obfuscation_decided_once swapped_env other_rnd first_run_world)
                [(swapped_env, other_rnd); (sample_env, other_rnd)]) as [Ho _].
    + vm_compute. discriminate.
    + rewrite Ho. vm_compute; reflexivity.
Defined.

(** ** Revoked keys *)

Lemma bind_ext {A B} (m m' : M A) (k k' : A → M B) w :
  (∀ w0, m w0 = m' w0) → (∀ a w1, k a w1 = k' a w1) →
  bind m k w = bind m' k' w.
Proof.
  intros Hm Hk. unfold bind. rewrite Hm. destruct (m' w); [apply Hk|done].
Qed.

Lemma for_each_ext {A S} (l : list A) (body body' : A → S → M S) acc w :
  (∀ x a w0, body x a w0 = body' x a w0) →
  for_each l body acc w = for_each l body' acc w.
Proof.
  intros Hbody. revert acc w. induction l as [|x l IH]; intros acc w; simpl.
  - done.
  - apply bind_ext; [intros; apply Hbody|intros; apply IH].
Qed.

(** A revoked key is passed over: the loop body returns at once. *)
Lemma setup_key_revoked env key details acc w :
  revoked env details = true → setup_key env key details acc w = Ok acc w.
Proof. intros H. unfold setup_key. by rewrite H. Qed.

Lemma discover_keys_without_revoked env pre key details post w :
  list_secret_keys env = pre ++ (key, details) :: post →
  revoked env details = true →
  discover_keys env w = discover_keys (with_secret_keys (pre ++ post) env) w.
Proof.
  intros Hkeys Hrev. unfold discover_keys. simpl.
  destruct (gnupg_is_available env); [|done].
  apply bind_ext; [|done]. intros w0. rewrite Hkeys.
  rewrite !for_each_app. apply bind_ext; [done|]. intros acc w1. simpl.
  unfold bind at 1. rewrite setup_key_revoked by done. done.
Qed.

(** C4: a key whose revocation date is, as a string, less than or equal to
    today's date is skipped entirely: the loop body returns the world and
    the list of accepted keys it was given (no profile, no recipient, no
    policy change, no message), and the whole command behaves exactly as
    on the keyring without that key. *)
Theorem revoked_key_skipped env rnd w pre key details post date :
  list_secret_keys env = pre ++ (key, details) :: post →
  revocation_date details = Some date →
  String.leb date (today env) = true →
  (∀ accepted_keys w1,
     setup_key env key details accepted_keys w1 = Ok accepted_keys w1) ∧
  command env rnd w = command (with_secret_keys (pre ++ post) env) rnd w.
Proof.
  intros Hkeys Hdate Hle.
  assert (Hrev : revoked env details = true) by (unfold revoked; by rewrite Hdate).
  split; [intros; by apply setup_key_revoked|].
  unfold command. apply bind_ext; [done|]. intros c w0.
  destruct (sys_lockdown c); [done|]. unfold setup_body.
  repeat (apply bind_ext;
            [first [done|intros wd; by eapply discover_keys_without_revoked]
            |intros ? ?]).
  done.
Qed.

Lemma revoked_key_skipped_witness :
  (∀ accepted_keys w1,
     setup_key revoked_env "KEYR" revoked_key accepted_keys w1
     = Ok accepted_keys w1) ∧
  command revoked_env sample_rnd fresh_world
  = command (with_secret_keys ([] ++ sample_keyring) revoked_env)
      sample_rnd fresh_world.
Proof.
  apply (revoked_key_skipped revoked_env sample_rnd fresh_world
           [] "KEYR" revoked_key sample_keyring "2000-01-01").
  - reflexivity.
  - reflexivity.
  - reflexivity.
Defined.

(** ** The tag store *)

Lemma get_tag_id_None t ts : get_tag_id t ts = None ↔ get_tag t ts = None.
Proof.
  induction ts as [|x ts IH]; simpl; [done|].
  destruct (decide (tag_key x = t)); [done|].
  rewrite <- IH. by destruct (get_tag_id t ts).
Qed.

Lemma get_tag_None t ts : get_tag t ts = None ↔ t ∉ tag_key <$> ts.
Proof.
  induction ts as [|x ts IH]; simpl.
  - split; [intros _; apply not_elem_of_nil|done].
  - rewrite not_elem_of_cons. destruct (decide (tag_key x = t)); naive_solver.
Qed.

Lemma get_tag_key t ts x : get_tag t ts = Some x → tag_key x = t.
Proof.
  induction ts as [|y ts IH]; simpl; [done|].
  destruct (decide (tag_key y = t)); [by intros [= <-]|done].
Qed.

Lemma get_tag_app t ts x :
  get_tag t (ts ++ [x])
  = match get_tag t ts with
    | Some y => Some y
    | None => if decide (tag_key x = t) then Some x else None
    end.
Proof.
  induction ts as [|y ts IH]; simpl; [done|].
  by destruct (decide (tag_key y = t)).
Qed.

Lemma update_tag_keys t attrs ts :
  tag_key <$> update_tag t attrs ts = tag_key <$> ts.
Proof.
  induction ts as [|x ts IH]; simpl; [done|].
  destruct (decide (tag_key x = t)); rewrite !fmap_cons; [done|by rewrite IH].
Qed.

Lemma get_tag_update_eq t attrs ts :
  get_tag t (update_tag t attrs ts)
  = (λ x, mkTag (tag_key x) (dict_update attrs (tag_attrs x))) <$> get_tag t ts.
Proof.
  induction ts as [|x ts IH]; simpl; [done|].
  destruct (decide (tag_key x = t)) as [Heq|Hne]; simpl.
  - by rewrite decide_True.
  - by rewrite decide_False.
Qed.

Lemma get_tag_update_ne k t attrs ts :
  k ≠ t → get_tag k (update_tag t attrs ts) = get_tag k ts.
Proof.
  intros Hkt. induction ts as [|x ts IH]; simpl; [done|].
  destruct (decide (tag_key x = t)) as [Heq|Hne]; simpl.
  - rewrite !decide_False by congruence. done.
  - by rewrite IH.
Qed.

Lemma update_tag_id t attrs ts x :
  get_tag t ts = Some x → attrs ⊆ tag_attrs x → update_tag t attrs ts = ts.
Proof.
  induction ts as [|y ts IH]; simpl; [done|].
  destruct (decide (tag_key y = t)) as [Heq|Hne].
  - intros [= <-] Hsub. unfold dict_update.
    rewrite (map_subseteq_union _ _ Hsub). by destruct y.
  - intros Hget Hsub. by rewrite IH.
Qed.

Lemma tags_with_key_nil k ts : k ∉ tag_key <$> ts → tags_with_key k ts = [].
Proof.
  unfold tags_with_key. induction ts as [|x ts IH]; simpl; [done|].
  rewrite not_elem_of_cons. intros [Hne Hnot].
  rewrite filter_cons_False by done. by apply IH.
Qed.

Lemma tags_with_key_one k ts :
  NoDup (tag_key <$> ts) → k ∈ tag_key <$> ts →
  length (tags_with_key k ts) = 1%nat.
Proof.
  unfold tags_with_key. induction ts as [|x ts IH]; simpl.
  - intros _ H. by apply elem_of_nil in H.
  - rewrite NoDup_cons. intros [Hnot Hnd] Hin.
    destruct (decide (tag_key x = k)) as [Heq|Hne].
    + rewrite filter_cons_True by done. simpl.
      rewrite Heq in Hnot. apply tags_with_key_nil in Hnot.
      unfold tags_with_key in Hnot. by rewrite Hnot.
    + rewrite filter_cons_False by done. apply IH; [done|].
      apply elem_of_cons in Hin as [?|?]; [congruence|done].
Qed.

(** ** Tag reconciliation *)

(** What one round of the tag loops does, in one equation. *)
Lemma ensure_tag_eq env t attrs created w :
  ensure_tag env t attrs created w
  = match get_tag t (tags (cfg w)) with
    | Some _ =>
        Ok created
          (mkWorld (set_tags (update_tag t attrs) (cfg w)) (disk w) (log w))
    | None =>
        match AddTag_run env t with
        | Some new =>
            Ok (created ++ [t])
              (mkWorld
                 (set_tags (update_tag t attrs)
                    (set_tags (λ ts, ts ++ [mkTag t new]) (cfg w)))
                 (disk w) (log w))
        | None => Raise AttributeError w
        end
    end.
Proof.
  unfold ensure_tag, bind, get_config, AddTag, bind, modify, ret, raise.
  destruct (get_tag_id t (tags (cfg w))) as [i|] eqn:Hid.
  - destruct (get_tag t (tags (cfg w))) eqn:Hget; [done|].
    apply get_tag_id_None in Hget. congruence.
  - apply get_tag_id_None in Hid. rewrite Hid.
    destruct (AddTag_run env t) as [new|]; simpl; [|by rewrite Hid].
    rewrite get_tag_app, Hid. simpl. by rewrite decide_True.
Qed.

(** The two loops are one loop over the canonical taxonomy. *)
Lemma create_standard_tags_flat env w :
  create_standard_tags env w
  = for_each (canonical_tags env)
      (λ '(t, attrs) created, ensure_tag env t attrs created) [] w.
Proof.
  unfold create_standard_tags, canonical_tags, attribute_tags.
  rewrite for_each_app. apply bind_ext; [done|]. intros created w1.
  rewrite for_each_app. simpl.
  apply bind_ext; [intros; by rewrite for_each_fmap|]. intros created' w2.
  rewrite for_each_fmap. unfold bind, ret.
  by destruct (for_each _ _ _ _).
Qed.

Lemma world_eta w : mkWorld (cfg w) (disk w) (log w) = w.
Proof. by destruct w. Qed.

Lemma set_tags_id f c : f (tags c) = tags c → set_tags f c = c.
Proof. intros H. destruct c. unfold set_tags. simpl in *. by rewrite H. Qed.

(** On a store that has the tag with its canonical attributes a round
    changes nothing at all. *)
Lemma ensure_tag_settled env t attrs created w :
  has_tag t attrs (tags (cfg w)) →
  ensure_tag env t attrs created w = Ok created w.
Proof.
  intros (x & Hget & Hsub). rewrite ensure_tag_eq, Hget.
  rewrite set_tags_id by (by eapply update_tag_id).
  by rewrite world_eta.
Qed.

Lemma tags_loop_settled env (l : list (string * Attrs)) created w :
  (∀ k attrs, (k, attrs) ∈ l → has_tag k attrs (tags (cfg w))) →
  for_each l (λ '(t, attrs) created, ensure_tag env t attrs created) created w
  = Ok created w.
Proof.
  induction l as [|[t attrs] l IH]; intros Hl; simpl; [done|].
  unfold bind. rewrite ensure_tag_settled by (apply Hl; left).
  apply IH. intros k a Hin. apply Hl. by right.
Qed.

Lemma create_standard_tags_settled env w :
  tags_settled env (tags (cfg w)) → create_standard_tags env w = Ok [] w.
Proof.
  intros H. rewrite create_standard_tags_flat. by apply tags_loop_settled.
Qed.

(** A round leaves the store with the tag and its canonical attributes,
    and keeps what it knew about other tags, also about the same tag if the
    attributes asked for are the same. *)
Lemma ensure_tag_has env t attrs created w created' w' :
  ensure_tag env t attrs created w = Ok created' w' →
  has_tag t attrs (tags (cfg w')).
Proof.
  rewrite ensure_tag_eq. unfold has_tag.
  destruct (get_tag t (tags (cfg w))) as [x|] eqn:Hget.
  - intros [= <- <-]. simpl. rewrite get_tag_update_eq, Hget. simpl.
    eexists; split; [done|]. simpl. apply map_union_subseteq_l.
  - destruct (AddTag_run env t) as [new|]; [|done].
    intros [= <- <-]. simpl. rewrite get_tag_update_eq, get_tag_app, Hget.
    simpl. rewrite decide_True by done. simpl.
    eexists; split; [done|]. simpl. apply map_union_subseteq_l.
Qed.

Lemma ensure_tag_keeps_has env t attrs created w created' w' k a :
  (t = k → attrs = a) →
  has_tag k a (tags (cfg w)) →
  ensure_tag env t attrs created w = Ok created' w' →
  has_tag k a (tags (cfg w')).
Proof.
  intros Hsame Hhas Hrun. destruct (decide (t = k)) as [->|Hne].
  - rewrite <- (Hsame eq_refl). by eapply ensure_tag_has.
  - revert Hrun. rewrite ensure_tag_eq. destruct Hhas as (x & Hget & Hsub).
    unfold has_tag.
    destruct (get_tag t (tags (cfg w))) as [y|] eqn:Hgt.
    + intros [= <- <-]. simpl. rewrite get_tag_update_ne by done. eauto.
    + destruct (AddTag_run env t) as [new|]; [|done].
      intros [= <- <-]. simpl. rewrite get_tag_update_ne by done.
      rewrite get_tag_app, Hget. eauto.
Qed.

Lemma tags_loop_keeps_has env (l : list (string * Attrs)) created w created' w' k a :
  (∀ attrs, (k, attrs) ∈ l → attrs = a) →
  has_tag k a (tags (cfg w)) →
  for_each l (λ '(t, attrs) created, ensure_tag env t attrs created) created w
  = Ok created' w' →
  has_tag k a (tags (cfg w')).
Proof.
  revert created w. induction l as [|[t attrs] l IH]; intros created w Hl Hhas; simpl.
  - by intros [= <- <-].
  - intros H. apply bind_Ok in H as (c1 & w1 & Hstep & Hrest).
    eapply IH; [| |exact Hrest].
    + intros attrs' Hin. apply Hl. by right.
    + eapply ensure_tag_keeps_has; [|exact Hhas|exact Hstep].
      intros ->. apply Hl. by left.
Qed.

(** After a loop over a table in which a key has one attribute dictionary
    only, every entry of the table is in the store. *)
Lemma tags_loop_has env (l : list (string * Attrs)) created w created' w' :
  (∀ k a a', (k, a) ∈ l → (k, a') ∈ l → a = a') →
  for_each l (λ '(t, attrs) created, ensure_tag env t attrs created) created w
  = Ok created' w' →
  ∀ k a, (k, a) ∈ l → has_tag k a (tags (cfg w')).
Proof.
  revert created w. induction l as [|[t attrs] l IH]; intros created w Hcons; simpl.
  - intros _ k a Hin. by apply elem_of_nil in Hin.
  - intros H k a Hin. apply bind_Ok in H as (c1 & w1 & Hstep & Hrest).
    apply elem_of_cons in Hin as [[= -> ->]|Hin].
    + eapply tags_loop_keeps_has; [|by eapply ensure_tag_has|exact Hrest].
      intros a' Hin'. symmetry. eapply Hcons; [by left|by right].
    + eapply IH; [|exact Hrest|exact Hin].
      intros k' a1 a2 H1 H2. eapply Hcons; by right.
Qed.

(** ** The canonical taxonomy *)

Lemma TAGS_keys tr :
  (TAGS tr).*1
  = [ "New"; "Inbox"; "Blank"; "Drafts"; "Outbox"; "Sent"; "Spam";
      "MaybeSpam"; "Ham"; "Trash"; "All Mail"; "Photos"; "Files"; "Links";
      "mp_rpl"; "mp_fwd"; "mp_tag"; "mp_read"; "mp_ham" ].
Proof. reflexivity. Qed.

Lemma TAGS_keys_NoDup tr : NoDup (TAGS tr).*1.
Proof. rewrite TAGS_keys. apply (bool_decide_unpack _). by vm_compute. Qed.

(** No key of [TAGS] has the form of an attribute tag name. *)
Lemma TAGS_keys_not_attribute tr k stype status :
  k ∈ (TAGS tr).*1 → stype = "sig" ∨ stype = "enc" →
  k ≠ attribute_tagname stype status.
Proof.
  rewrite TAGS_keys. intros Hin Hstype.
  repeat (apply elem_of_cons in Hin as [->|Hin]);
    try (by apply elem_of_nil in Hin);
    destruct Hstype as [-> | ->];
    cbv [attribute_tagname String.append]; discriminate.
Qed.

Lemma NoDup_fst_functional {A B} (l : list (A * B)) k a a' :
  NoDup l.*1 → (k, a) ∈ l → (k, a') ∈ l → a = a'.
Proof.
  induction l as [|[k0 a0] l IH]; simpl.
  - intros _ H. by apply elem_of_nil in H.
  - rewrite NoDup_cons. intros [Hnot Hnd] H1 H2.
    apply elem_of_cons in H1 as [H1|H1];
      apply elem_of_cons in H2 as [H2|H2]; simplify_eq; try done.
    + exfalso. apply Hnot. apply list_elem_of_fmap.
      eexists (_, _). split; [|eassumption]. done.
    + exfalso. apply Hnot. apply list_elem_of_fmap.
      eexists (_, _). split; [|eassumption]. done.
    + by apply IH.
Qed.

(** The canonical taxonomy names the members of the claims: a key of
    [TAGS] with its dictionary, or a generated key with the attribute
    dictionary. *)
Lemma canonical_tags_cases env k a :
  (k, a) ∈ canonical_tags env ↔
  (k, a) ∈ TAGS (gettext env) ∨
  (a = attribute_attrs ∧
   ((∃ status, status ∈ SignatureInfo_STATUSES env ∧
               k = attribute_tagname "sig" status) ∨
    (∃ status, status ∈ EncryptionInfo_STATUSES env ∧
               k = attribute_tagname "enc" status))).
Proof.
  unfold canonical_tags. rewrite !elem_of_app, !list_elem_of_fmap.
  naive_solver.
Qed.

Lemma canonical_tags_consistent env k a a' :
  (k, a) ∈ canonical_tags env → (k, a') ∈ canonical_tags env → a = a'.
Proof.
  rewrite !canonical_tags_cases.
  intros [H1|[-> H1]] [H2|[-> H2]]; [|exfalso|exfalso|done].
  - by eapply NoDup_fst_functional; [apply TAGS_keys_NoDup|..].
  - apply (list_elem_of_fmap_2 fst) in H1. simpl in H1.
    destruct H2 as [(s & _ & ->)|(s & _ & ->)].
    + by eapply (TAGS_keys_not_attribute (gettext env) _ "sig" s); [exact H1|left|].
    + by eapply (TAGS_keys_not_attribute (gettext env) _ "enc" s); [exact H1|right|].
  - apply (list_elem_of_fmap_2 fst) in H2. simpl in H2.
    destruct H1 as [(s & _ & ->)|(s & _ & ->)].
    + by eapply (TAGS_keys_not_attribute (gettext env) _ "sig" s); [exact H2|left|].
    + by eapply (TAGS_keys_not_attribute (gettext env) _ "enc" s); [exact H2|right|].
Qed.

(** After a tag stage that returns, the store is settled. *)
Lemma create_standard_tags_Ok_settled env w created w' :
  create_standard_tags env w = Ok created w' → tags_settled env (tags (cfg w')).
Proof.
  rewrite create_standard_tags_flat. intros H k a Hin.
  eapply tags_loop_has; [|exact H|exact Hin].
  intros k' a1 a2. apply canonical_tags_consistent.
Qed.

(** ** Relations kept stage by stage *)

Lemma command_keeps_stages (Rc : relation Config) `{!PreOrder Rc} env rnd :
  (∀ w, keeps (on_cfg Rc) (create_standard_tags env) w) →
  (∀ w, keeps (on_cfg Rc) (import_plugins env) w) →
  (∀ w, keeps (on_cfg Rc) (enable_importers env) w) →
  (∀ w, keeps (on_cfg Rc) setup_autotag w) →
  (∀ w, keeps (on_cfg Rc) (discover_keys env) w) →
  (∀ w, keeps (on_cfg Rc) (obfuscate env rnd) w) →
  ∀ w, keeps (on_cfg Rc) (command env rnd) w.
Proof.
  intros Ht Hp Hi Ha Hd Ho w. unfold command, setup_body.
  keeps_go ltac:(first
    [ apply Ht | apply Hp | apply Hi | apply Ha | apply Hd | apply Ho
    | reflexivity ]).
Qed.

(** A relation that only looks at the tags is kept by every stage but the
    tag stage. *)
Lemma command_keeps_tags (Rc : relation Config) `{!PreOrder Rc} env rnd :
  (∀ c c', tags c' = tags c → Rc c c') →
  (∀ w, keeps (on_cfg Rc) (create_standard_tags env) w) →
  ∀ w, keeps (on_cfg Rc) (command env rnd) w.
Proof.
  intros Hsame Ht. apply command_keeps_stages; [apply _|exact Ht|..]; intros w.
  - eapply keeps_frame; [apply import_plugins_only_plugins|].
    intros c c' ->. by apply Hsame.
  - eapply keeps_frame; [apply enable_importers_only_importers|].
    intros c c' ->. by apply Hsame.
  - eapply keeps_frame; [apply setup_autotag_only_autotag|].
    intros c c' ->. by apply Hsame.
  - eapply keeps_frame; [apply discover_keys_only_identity|].
    intros c c' ->. by apply Hsame.
  - eapply keeps_frame; [apply obfuscate_only_obfuscation|].
    intros c c' ->. by apply Hsame.
Qed.

Global Instance tags_stay_preorder env : PreOrder (tags_stay env).
Proof.
  split.
  - by intros c.
  - intros c1 c2 c3 H1 H2 Hs. unfold tags_stay in *.
    rewrite H2; rewrite H1; done.
Qed.

Global Instance keys_nodup_preorder : PreOrder keys_nodup.
Proof.
  split.
  - intros c Hs. exact Hs.
  - intros c1 c2 c3 H1 H2 Hs. unfold keys_nodup in *. auto.
Qed.

Lemma command_tags_stay env rnd w :
  keeps (on_cfg (tags_stay env)) (command env rnd) w.
Proof.
  apply command_keeps_tags; [apply _|by intros c c' H _|].
  intros w1. unfold keeps, on_cfg. intros Hs.
  by rewrite create_standard_tags_settled.
Qed.

Lemma ensure_tag_keys_nodup env t attrs created w :
  keeps (on_cfg keys_nodup) (ensure_tag env t attrs created) w.
Proof.
  unfold keeps, on_cfg, keys_nodup. rewrite ensure_tag_eq.
  destruct (get_tag t (tags (cfg w))) as [x|] eqn:Hget; simpl.
  - by rewrite update_tag_keys.
  - destruct (AddTag_run env t) as [new|]; simpl; [|done].
    rewrite update_tag_keys, fmap_app. simpl. intros Hnd.
    apply NoDup_app. split; [done|]. split; [|apply NoDup_singleton].
    intros k Hin ->%list_elem_of_singleton. by apply get_tag_None in Hget.
Qed.

Lemma command_keys_nodup env rnd w :
  keeps (on_cfg keys_nodup) (command env rnd) w.
Proof.
  apply command_keeps_tags;
    [apply _|intros c c' Heq; unfold keys_nodup; by rewrite Heq|].
  intros w1. unfold create_standard_tags, attribute_tags.
  keeps_go ltac:(apply ensure_tag_keys_nodup).
Qed.

Lemma run_all_tags_stay env rnds w :
  tags_settled env (tags (cfg w)) →
  tags (cfg (run_all ((λ rnd, (env, rnd)) <$> rnds) w)) = tags (cfg w).
Proof.
  revert w. induction rnds as [|rnd rnds IH]; intros w Hs; simpl; [done|].
  pose proof (command_tags_stay env rnd w Hs) as Heq.
  rewrite IH; [done|]. by rewrite Heq.
Qed.

(** A run that reports success leaves a settled tag store. *)
Lemma command_Success_settled env rnd w msg w' :
  command env rnd w = Ok (Success msg) w' → tags_settled env (tags (cfg w')).
Proof.
  intros H. apply command_Success in H as [_ H].
  apply setup_body_Ok in H
    as (created & w1 & w1' & w2 & w3 & w4 & w5 & w6
        & Htags & (Hc1 & _ & _) & Hplug & Himp & Hauto & Hdisc & Hobf
        & -> & _).
  apply create_standard_tags_Ok_settled in Htags.
  apply (keeps_Ok _ _ _ _ _ (import_plugins_only_plugins _ _)) in Hplug.
  apply (keeps_Ok _ _ _ _ _ (enable_importers_only_importers _ _)) in Himp.
  apply (keeps_Ok _ _ _ _ _ (setup_autotag_only_autotag _)) in Hauto.
  apply (keeps_Ok _ _ _ _ _ (discover_keys_only_identity _ _)) in Hdisc.
  apply (keeps_Ok _ _ _ _ _ (obfuscate_only_obfuscation _ _ _)) in Hobf.
  unfold on_cfg in *. simpl in *.
  rewrite Hobf, Hdisc, Hauto, Himp, Hplug, Hc1. simpl. done.
Qed.

(** ** Uniqueness of the canonical tags *)

(** C6, as the code has it: start from a store without duplicated keys and
    let a run report success; then, after that run and after any number of
    further runs in the same surroundings (whatever their outcome), every
    canonical key has exactly one tag, and every attribute the canonical
    definition names has its canonical value.  Attributes the canonical
    definition does not name are not part of the statement: [update] leaves
    them as they are. *)
Theorem canonical_tags_unique env rnd w msg w' rnds k attrs :
  NoDup (tag_key <$> tags (cfg w)) →
  command env rnd w = Ok (Success msg) w' →
  (k, attrs) ∈ canonical_tags env →
  length (tags_with_key k
            (tags (cfg (run_all ((λ rnd, (env, rnd)) <$> rnds) w')))) = 1%nat ∧
  ∃ x, get_tag k (tags (cfg (run_all ((λ rnd, (env, rnd)) <$> rnds) w')))
       = Some x ∧
       attrs ⊆ tag_attrs x.
Proof.
  intros Hnd Hrun Hin.
  pose proof (command_Success_settled _ _ _ _ _ Hrun) as Hs.
  rewrite run_all_tags_stay by done.
  pose proof (command_keys_nodup env rnd w) as Hnd'.
  unfold keeps, on_cfg, keys_nodup in Hnd'. rewrite Hrun in Hnd'. simpl in Hnd'.
  destruct (Hs k attrs Hin) as (x & Hget & Hsub).
  split; [|by exists x].
  apply tags_with_key_one; [by apply Hnd'|].
  destruct (decide (k ∈ tag_key <$> tags (cfg w'))) as [|Hnot]; [done|].
  apply get_tag_None in Hnot. congruence.
Qed.

Lemma canonical_tags_unique_witness :
  length (tags_with_key "Ham"
            (tags (cfg (run_all [(sample_env, other_rnd); (sample_env, sample_rnd)]
                          (final (command sample_env sample_rnd custom_world))))))
  = 1%nat ∧
  ∃ x, get_tag "Ham"
         (tags (cfg (run_all [(sample_env, other_rnd); (sample_env, sample_rnd)]
                       (final (command sample_env sample_rnd custom_world)))))
       = Some x ∧
       list_to_map [ ("type", PyStr "ham"); ("display", PyStr "invisible");
                     ("name", PyStr "Ham") ] ⊆ tag_attrs x.
Proof.
  apply (canonical_tags_unique sample_env sample_rnd custom_world
           "Performed initial Mailpile setup"
           (final (command sample_env sample_rnd custom_world))
           [other_rnd; sample_rnd] "Ham").
  - apply (bool_decide_unpack _). by vm_compute.
  - vm_compute; reflexivity.
  - apply (bool_decide_unpack _). by vm_compute.
Defined.

(** C6, as the claim states it, fails where a canonical tag already carries
    an attribute its canonical definition does not name: the run succeeds,
    and the tag's attributes are not the canonical dictionary. *)
Lemma canonical_attrs_equal_cex :
  ∃ w' x,
    command sample_env sample_rnd custom_world
    = Ok (Success "Performed initial Mailpile setup") w' ∧
    ("Ham", list_to_map [ ("type", PyStr "ham"); ("display", PyStr "invisible");
                          ("name", PyStr "Ham") ]) ∈ canonical_tags sample_env ∧
    get_tag "Ham" (tags (cfg w')) = Some x ∧
    tag_attrs x !! "icon" = Some (PyStr "icon-ham") ∧
    tag_attrs x ≠ list_to_map [ ("type", PyStr "ham");
                                ("display", PyStr "invisible");
                                ("name", PyStr "Ham") ].
Proof.
  exists (final (command sample_env sample_rnd custom_world)).
  eexists. split; [vm_compute; reflexivity|].
  split; [apply (bool_decide_unpack _); by vm_compute|].
  split; [vm_compute; reflexivity|].
  split; [vm_compute; reflexivity|].
  intros Heq. apply (f_equal (λ m : Attrs, m !! "icon")) in Heq.
  vm_compute in Heq. discriminate.
Qed.

(** * Further properties of the command *)

(** ** Exceptions of a computation *)

Lemma raises_only_ret {A} P (a : A) : raises_only P (ret a).
Proof. by intros w e w'. Qed.

Lemma raises_only_raise {A} (P : Exn → Prop) e : P e → raises_only P (raise (A:=A) e).
Proof. intros HP w e' w'. unfold raise. by intros [= <- _]. Qed.

Lemma raises_only_get {A} P (k : Config → M A) :
  (∀ c, raises_only P (k c)) → raises_only P (bind get_config k).
Proof. intros Hk w e w'. unfold bind, get_config. apply Hk. Qed.

Lemma raises_only_bind {A B} P (m : M A) (k : A → M B) :
  raises_only P m → (∀ a, raises_only P (k a)) → raises_only P (bind m k).
Proof.
  intros Hm Hk w e w' [H|(a & w1 & _ & H)]%bind_Raise.
  - by eapply Hm.
  - by eapply Hk.
Qed.

Lemma raises_only_when P b (m : M unit) :
  raises_only P m → raises_only P (when b m).
Proof. destruct b; simpl; [done|intros _; apply raises_only_ret]. Qed.

Lemma raises_only_for_each {A S} P (l : list A) (body : A → S → M S) acc :
  (∀ x a, raises_only P (body x a)) → raises_only P (for_each l body acc).
Proof.
  intros Hbody. revert acc. induction l as [|x l IH]; intros acc; simpl.
  - apply raises_only_ret.
  - apply raises_only_bind; [apply Hbody|intros; apply IH].
Qed.

Lemma raises_only_for_ {A} P (l : list A) (body : A → M unit) :
  (∀ x, raises_only P (body x)) → raises_only P (for_ l body).
Proof. intros Hbody. unfold for_. apply raises_only_for_each. intros; apply Hbody. Qed.

Lemma raises_only_modify P f : raises_only P (modify f).
Proof. by intros w e w'. Qed.

Lemma raises_only_emit P ev : raises_only P (emit ev).
Proof. by intros w e w'. Qed.

Lemma raises_only_format_with (P : Exn → Prop) env fmt key :
  P TypeError → P ValueError → raises_only P (format_with env fmt key).
Proof.
  intros HT HV w e w'. unfold format_with, ret, raise.
  destruct (str_mod env fmt key); intros ?; by simplify_eq.
Qed.

(** Structural steps of "raises only" proofs; [tac] closes what is left. *)
Ltac raises_step tac :=
  lazymatch goal with
  | |- raises_only _ (ret _) => apply raises_only_ret
  | |- raises_only _ (raise _) => apply raises_only_raise; tac
  | |- raises_only _ (bind get_config _) => apply raises_only_get; intros ?
  | |- raises_only _ (bind _ _) => apply raises_only_bind; [|intros ?]
  | |- raises_only _ (when _ _) => apply raises_only_when
  | |- raises_only _ (for_each _ _ _) => apply raises_only_for_each; intros ? ?
  | |- raises_only _ (for_ _ _) => apply raises_only_for_; intros ?
  | |- raises_only _ (match ?x with _ => _ end) => destruct x
  | |- raises_only _ ((match ?x with _ => _ end) _) => destruct x
  | |- raises_only _ (modify _) => apply raises_only_modify
  | |- raises_only _ (emit _) => apply raises_only_emit
  | |- raises_only _ (format_with _ _ _) =>
      apply raises_only_format_with; tac
  | |- raises_only _ _ => tac
  end.

Ltac raises_go tac := repeat (cbv beta iota zeta; raises_step tac).


Lemma import_plugins_never_raises env : raises_only (λ _, False) (import_plugins env).
Proof. unfold import_plugins. raises_go idtac. Qed.

Lemma enable_importers_never_raises env :
  raises_only (λ _, False) (enable_importers env).
Proof. unfold enable_importers. raises_go idtac. Qed.

Lemma setup_autotag_never_raises : raises_only (λ _, False) setup_autotag.
Proof. unfold setup_autotag. raises_go idtac. Qed.

Lemma obfuscate_never_raises env rnd : raises_only (λ _, False) (obfuscate env rnd).
Proof. unfold obfuscate. raises_go idtac. Qed.


Lemma discover_keys_raises env : raises_only discovery_exn (discover_keys env).
Proof.
  unfold discover_keys, setup_key, add_profile.
  raises_go ltac:(unfold discovery_exn; auto).
Qed.

(** ** Loops over the members of a list *)

Lemma keeps_for_each_elem (R : relation World) `{!PreOrder R} {A S}
    (l : list A) (body : A → S → M S) :
  (∀ x acc w, x ∈ l → keeps R (body x acc) w) →
  ∀ acc w, keeps R (for_each l body acc) w.
Proof.
  induction l as [|x l IH]; intros Hbody acc w; simpl.
  - by apply keeps_ret.
  - apply keeps_bind; [done|apply Hbody; by left|].
    intros a w1. apply IH. intros y acc' w2 Hin. apply Hbody. by right.
Qed.

(** The tag stage, as a loop over the canonical taxonomy, keeps what every
    round keeps. *)
Lemma create_standard_tags_keeps (R : relation World) `{!PreOrder R} env :
  (∀ t attrs created w,
     (t, attrs) ∈ canonical_tags env → keeps R (ensure_tag env t attrs created) w) →
  ∀ w, keeps R (create_standard_tags env) w.
Proof.
  intros Hstep w. unfold keeps. rewrite create_standard_tags_flat.
  apply (keeps_for_each_elem R). intros [t attrs] acc w0 Hin.
  by apply Hstep.
Qed.

(** A stage keeps a relation that follows from its footprint. *)
Ltac by_frame tac :=
  intros ?;
  first
    [ eapply keeps_frame; [apply create_standard_tags_only_tags|]
    | eapply keeps_frame; [apply import_plugins_only_plugins|]
    | eapply keeps_frame; [apply enable_importers_only_importers|]
    | eapply keeps_frame; [apply setup_autotag_only_autotag|]
    | eapply keeps_frame; [apply discover_keys_only_identity|]
    | eapply keeps_frame; [apply obfuscate_only_obfuscation|] ];
  intros ? ? ->; tac.

Global Instance quiet_preorder : PreOrder quiet.
Proof.
  split.
  - by intros w.
  - intros w1 w2 w3 [Hd1 Hl1] [Hd2 Hl2]. split; congruence.
Qed.

Lemma create_standard_tags_quiet env w : keeps quiet (create_standard_tags env) w.
Proof.
  unfold create_standard_tags, attribute_tags, ensure_tag, AddTag.
  keeps_go ltac:(by unfold quiet).
Qed.

(** ** The encryption policy *)

Global Instance policy_steps_preorder : PreOrder policy_steps.
Proof.
  split.
  - intros c. by left.
  - intros c1 c2 c3 [H1|[H1 H1']] [H2|[H2 H2']]; unfold policy_steps.
    + left. congruence.
    + right. split; congruence.
    + right. split; congruence.
    + rewrite H1' in H2. discriminate.
Qed.

Lemma policy_steps_same c c' :
  crypto_policy c' = crypto_policy c → policy_steps c c'.
Proof. by left. Qed.

Lemma setup_key_policy_steps env key details acc w :
  keeps (on_cfg policy_steps) (setup_key env key details acc) w.
Proof.
  unfold setup_key, add_profile.
  keeps_go ltac:(first [by apply policy_steps_same|idtac]).
  match goal with
  | H : bool_decide _ = true |- _ => apply bool_decide_eq_true in H
  end.
  by right.
Qed.

Lemma discover_keys_policy_steps env w :
  keeps (on_cfg policy_steps) (discover_keys env) w.
Proof.
  unfold discover_keys.
  keeps_go ltac:(first [apply setup_key_policy_steps
                       |by apply policy_steps_same]).
Qed.

Lemma command_policy_steps env rnd w :
  keeps (on_cfg policy_steps) (command env rnd) w.
Proof.
  apply command_keeps_stages; [apply _|..];
    first [apply discover_keys_policy_steps
          |by_frame ltac:(by apply policy_steps_same)].
Qed.

(** An accepted key leaves a policy other than "none". *)
Lemma setup_key_policy_set env key details acc w acc' w' :
  revoked env details = false →
  setup_key env key details acc w = Ok acc' w' →
  crypto_policy (cfg w') ≠ "none".
Proof.
  intros Hrev. unfold setup_key. rewrite Hrev. intros H.
  apply bind_Ok in H as ([] & wu & _ & H).
  apply bind_Ok in H as (c & wu' & [= <- <-] & H).
  apply bind_Ok in H as ([] & wr & _ & H).
  revert H. unfold bind, get_config, when, modify, ret.
  destruct (bool_decide (crypto_policy (cfg wr) = "none")) eqn:Hp; simpl;
    intros ?; simplify_eq; simpl; [done|].
  by apply bool_decide_eq_false in Hp.
Qed.

Lemma keys_loop_policy_set env keys acc w acc' w' key details :
  (key, details) ∈ keys → revoked env details = false →
  for_each keys
    (λ '(key, details) accepted_keys, setup_key env key details accepted_keys)
    acc w = Ok acc' w' →
  crypto_policy (cfg w') ≠ "none".
Proof.
  intros Hin Hrev. revert acc w.
  induction keys as [|[k d] keys IH]; intros acc w H; simpl in H.
  - by apply elem_of_nil in Hin.
  - apply bind_Ok in H as (acc1 & w1 & Hstep & Hrest).
    apply elem_of_cons in Hin as [[= <- <-]|Hin]; [|by eapply IH].
    apply setup_key_policy_set in Hstep; [|done].
    assert (Hk : keeps (on_cfg policy_steps)
              (for_each keys
                 (λ '(key, details) accepted_keys,
                    setup_key env key details accepted_keys) acc1) w1).
    { apply keeps_for_each; [apply _|]. intros [k' d'] a w0.
      apply setup_key_policy_steps. }
    apply (keeps_Ok _ _ _ _ _ Hk) in Hrest as [Heq|[Hnone _]]; [|done].
    unfold on_cfg in *. congruence.
Qed.

(** X1: the encryption policy is never downgraded, and one usable key
    upgrades it.  Whatever the outcome of a run, the policy at the end is the
    policy at the start, or the start was "none" and the end is
    "openpgp-sign"; when the keyring is available and lists a key that is not
    revoked, a run that reports success does not end with "none". *)
Theorem crypto_policy_upgraded env rnd w :
  (crypto_policy (cfg (final (command env rnd w))) = crypto_policy (cfg w) ∨
   (crypto_policy (cfg w) = "none" ∧
    crypto_policy (cfg (final (command env rnd w))) = "openpgp-sign")) ∧
  (∀ msg w' key details,
     command env rnd w = Ok (Success msg) w' →
     gnupg_is_available env = true →
     (key, details) ∈ list_secret_keys env → revoked env details = false →
     crypto_policy (cfg w') ≠ "none").
Proof.
  split; [apply (command_policy_steps env rnd w)|].
  intros msg w' key details H Havail Hin Hrev.
  apply command_Success in H as [_ H].
  apply setup_body_identity in H
    as (w4 & w5 & w6 & _ & Hdisc & Hobf & Hcfg & _).
  rewrite Hcfg.
  apply (keeps_Ok _ _ _ _ _ (obfuscate_only_obfuscation _ _ _)) in Hobf.
  unfold on_cfg in Hobf. rewrite Hobf. simpl.
  unfold discover_keys in Hdisc. rewrite Havail in Hdisc.
  apply bind_Ok in Hdisc as (acc & w5' & Hloop & [= <-]).
  by eapply keys_loop_policy_set.
Qed.

(** ** No usable key *)

Global Instance same_identity_preorder : PreOrder same_identity.
Proof.
  split.
  - by intros c.
  - intros c1 c2 c3 (H1 & H2 & H3) (H4 & H5 & H6). unfold same_identity.
    split_and!; congruence.
Qed.

Lemma discover_keys_unusable env w :
  gnupg_is_available env = false ∨
  (∀ key details, (key, details) ∈ list_secret_keys env →
                  revoked env details = true) →
  keeps (on_cfg same_identity) (discover_keys env) w.
Proof.
  intros Hcond. unfold discover_keys.
  destruct (gnupg_is_available env) eqn:Havail.
  - destruct Hcond as [?|Hall]; [done|].
    apply keeps_bind; [apply _| |intros; by apply keeps_ret, _].
    apply keeps_for_each_elem; [apply _|]. intros [k d] acc w0 Hin.
    unfold keeps. rewrite setup_key_revoked by (by eapply Hall). simpl.
    reflexivity.
  - by unfold keeps, on_cfg, emit.
Qed.

(** X2: without a usable key nothing about identities changes.  When the
    keyring is unavailable, or every key it lists is revoked, a run ends,
    whatever its outcome, with the profiles, the recipient key and the
    encryption policy it started with; an unavailable keyring is reported
    by a warning in every run that reports success. *)
Theorem no_usable_key env rnd w :
  gnupg_is_available env = false ∨
  (∀ key details, (key, details) ∈ list_secret_keys env →
                  revoked env details = true) →
  (profiles (cfg (final (command env rnd w))) = profiles (cfg w) ∧
   gpg_recipient (cfg (final (command env rnd w))) = gpg_recipient (cfg w) ∧
   crypto_policy (cfg (final (command env rnd w))) = crypto_policy (cfg w)) ∧
  (∀ msg w',
     gnupg_is_available env = false →
     command env rnd w = Ok (Success msg) w' →
     EvWarning (gettext env "Oh no, PGP/GPG support is unavailable!") ∈ log w').
Proof.
  intros Hcond. split.
  - change (keeps (on_cfg same_identity) (command env rnd) w).
    apply command_keeps_stages; [apply _|..];
      first [intros w0; by apply discover_keys_unusable
            |by_frame ltac:(done)].
  - intros msg w' Havail H. apply command_Success in H as [_ H].
    apply setup_body_Ok in H
      as (created & w1 & w1' & w2 & w3 & w4 & w5 & w6
          & _ & _ & _ & _ & _ & Hdisc & Hobf & -> & _).
    apply (ui_only_Ok _ _ _ _ (obfuscate_ui _ _ _)) in Hobf
      as [_ (e6 & Hlog6 & _)].
    unfold discover_keys in Hdisc. rewrite Havail in Hdisc.
    unfold emit in Hdisc. injection Hdisc as <-. simpl in *.
    rewrite Hlog6. rewrite !elem_of_app, list_elem_of_singleton. auto.
Qed.

Lemma no_usable_key_witness :
  (profiles (cfg (final (command no_gpg_env sample_rnd fresh_world)))
   = profiles (cfg fresh_world) ∧
   gpg_recipient (cfg (final (command no_gpg_env sample_rnd fresh_world)))
   = gpg_recipient (cfg fresh_world) ∧
   crypto_policy (cfg (final (command no_gpg_env sample_rnd fresh_world)))
   = crypto_policy (cfg fresh_world)) ∧
  (∀ msg w',
     gnupg_is_available no_gpg_env = false →
     command no_gpg_env sample_rnd fresh_world = Ok (Success msg) w' →
     EvWarning (gettext no_gpg_env "Oh no, PGP/GPG support is unavailable!")
     ∈ log w').
Proof.
  apply (no_usable_key no_gpg_env sample_rnd fresh_world). left. reflexivity.
Defined.

(** ** Plugins *)

Lemma plugins_grow_same env c c' :
  sys_plugins c' = sys_plugins c → plugins_grow env c c'.
Proof.
  intros H. exists []. rewrite app_nil_r. split; [done|]. split; [constructor|].
  intros p Hp. by apply elem_of_nil in Hp.
Qed.

Global Instance plugins_grow_preorder env : PreOrder (plugins_grow env).
Proof.
  split.
  - intros c. by apply plugins_grow_same.
  - intros c1 c2 c3 (n1 & H1 & Hnd1 & Hnew1) (n2 & H2 & Hnd2 & Hnew2).
    exists (n1 ++ n2). split; [by rewrite H2, H1, app_assoc|]. split.
    + apply NoDup_app. split; [done|]. split; [|done].
      intros p Hp1 Hp2. apply Hnew2 in Hp2 as [Hnot _]. apply Hnot.
      rewrite H1. apply elem_of_app. by right.
    + intros p [Hp|Hp]%elem_of_app; [by apply Hnew1|].
      apply Hnew2 in Hp as [Hnot Hfrom]. split; [|done].
      intros Hin. apply Hnot. rewrite H1. apply elem_of_app. by left.
Qed.

Lemma plugins_grow_one env p c :
  p ∉ sys_plugins c →
  p ∈ PLUGINS env ∨ (p = "autotag_sb" ∧ autotag_sb_importable env = true) →
  plugins_grow env c (set_sys_plugins (λ l, l ++ [p]) c).
Proof.
  intros Hnot Hfrom. exists [p]. simpl. split; [done|].
  split; [apply NoDup_singleton|]. by intros q ->%list_elem_of_singleton.
Qed.

Lemma keeps_for_elem (R : relation World) `{!PreOrder R} {A}
    (l : list A) (body : A → M unit) :
  (∀ x w, x ∈ l → keeps R (body x) w) → ∀ w, keeps R (for_ l body) w.
Proof.
  intros Hbody w. unfold for_. apply keeps_for_each_elem; [done|].
  intros x [] w0 Hin. by apply Hbody.
Qed.

Lemma import_plugins_grow env w :
  keeps (on_cfg (plugins_grow env)) (import_plugins env) w.
Proof.
  unfold import_plugins. apply keeps_bind; [apply _| |intros [] w1].
  - apply keeps_for_elem; [apply _|]. intros p w0 Hin.
    keeps_go idtac.
    match goal with
    | H : bool_decide _ = true |- _ => apply bool_decide_eq_true in H
    end.
    apply plugins_grow_one; auto.
  - destruct (autotag_sb_importable env) eqn:Himp.
    + keeps_go ltac:(first [by apply plugins_grow_same|idtac]).
      match goal with
      | H : bool_decide _ = true |- _ => apply bool_decide_eq_true in H
      end.
      apply plugins_grow_one; auto.
    + keeps_go ltac:(by apply plugins_grow_same).
Qed.

Lemma command_plugins_grow env rnd w :
  keeps (on_cfg (plugins_grow env)) (command env rnd) w.
Proof.
  apply command_keeps_stages; [apply _|..];
    first [apply import_plugins_grow
          |by_frame ltac:(by apply plugins_grow_same)].
Qed.

Lemma plugins_grow_elem env c c' p :
  plugins_grow env c c' → p ∈ sys_plugins c → p ∈ sys_plugins c'.
Proof. intros (new & -> & _) Hin. apply elem_of_app. by left. Qed.

(** After the loop over [PLUGINS] every plugin it names is listed. *)
Lemma plugins_loop_listed env l w u w' :
  for_ l (λ plugin,
            c <- get_config ;;
            when (bool_decide (plugin ∉ sys_plugins c))
              (modify (set_sys_plugins (λ l, l ++ [plugin])))) w = Ok u w' →
  (∀ p, p ∈ l → p ∈ PLUGINS env) →
  ∀ p, p ∈ l → p ∈ sys_plugins (cfg w').
Proof.
  unfold for_. revert w. induction l as [|q l IH]; intros w H Hsub p Hin; simpl in H.
  - by apply elem_of_nil in Hin.
  - apply bind_Ok in H as ([] & w1 & Hstep & Hrest).
    apply elem_of_cons in Hin as [->|Hin].
    + assert (Hq : q ∈ sys_plugins (cfg w1)).
      { revert Hstep. unfold bind, get_config, when, modify, ret.
        case_bool_decide as Hd; simpl; intros ?; simplify_eq; simpl.
        - apply elem_of_app. right. by left.
        - exact Hd. }
      assert (Hk : keeps (on_cfg (plugins_grow env))
                (for_each l
                   (λ plugin (_ : ()),
                      c <- get_config ;;
                      when (bool_decide (plugin ∉ sys_plugins c))
                        (modify (set_sys_plugins (λ l, l ++ [plugin])))) ()) w1).
      { apply keeps_for_each_elem; [apply _|]. intros x [] w0 Hx.
        keeps_go idtac.
        match goal with
        | H : bool_decide _ = true |- _ => apply bool_decide_eq_true in H
        end.
        apply plugins_grow_one; [done|]. left. apply Hsub. by right. }
      apply (keeps_Ok _ _ _ _ _ Hk) in Hrest.
      by eapply plugins_grow_elem.
    + eapply IH; [exact Hrest| |exact Hin]. intros x Hx. apply Hsub. by right.
Qed.

Lemma import_plugins_listed env w u w' :
  import_plugins env w = Ok u w' →
  (∀ p, p ∈ PLUGINS env → p ∈ sys_plugins (cfg w')) ∧
  (autotag_sb_importable env = true → "autotag_sb" ∈ sys_plugins (cfg w')).
Proof.
  unfold import_plugins. intros H.
  apply bind_Ok in H as ([] & w1 & Hloop & Htail).
  pose proof (plugins_loop_listed env _ _ _ _ Hloop (λ p Hp, Hp)) as Hlisted.
  destruct (autotag_sb_importable env) eqn:Himp.
  - revert Htail. unfold bind, get_config, when, modify, emit, ret.
    case_bool_decide as Hd; simpl; intros ?; simplify_eq; simpl.
    + split.
      * intros p Hp. apply elem_of_app. left. by apply Hlisted.
      * intros _. apply elem_of_app. right. by left.
    + split; [done|]. intros _.
      exact Hd.
  - unfold emit in Htail. simplify_eq. simpl. by split.
Qed.

(** X3: plugin activation.  Whatever the outcome of a run, the plugin list
    it ends with is the one it started with followed by plugins that were
    not listed, without repetition, each named by [PLUGINS] or being the
    spambayes autotagger when that can be imported; after a run that reports
    success every plugin of [PLUGINS] is listed, and so is the autotagger
    when it can be imported. *)
Theorem plugins_enabled env rnd w :
  (∃ new,
     sys_plugins (cfg (final (command env rnd w))) = sys_plugins (cfg w) ++ new ∧
     NoDup new ∧
     ∀ p, p ∈ new →
          (p ∉ sys_plugins (cfg w)) ∧
          (p ∈ PLUGINS env ∨
           (p = "autotag_sb" ∧ autotag_sb_importable env = true))) ∧
  (∀ msg w',
     command env rnd w = Ok (Success msg) w' →
     (∀ p, p ∈ PLUGINS env → p ∈ sys_plugins (cfg w')) ∧
     (autotag_sb_importable env = true → "autotag_sb" ∈ sys_plugins (cfg w'))).
Proof.
  split; [apply (command_plugins_grow env rnd w)|].
  intros msg w' H. apply command_Success in H as [_ H].
  apply setup_body_Ok in H
    as (created & w1 & w1' & w2 & w3 & w4 & w5 & w6
        & _ & _ & Hplug & Himp & Hauto & Hdisc & Hobf & -> & _).
  apply import_plugins_listed in Hplug.
  apply (keeps_Ok _ _ _ _ _ (enable_importers_only_importers _ _)) in Himp.
  apply (keeps_Ok _ _ _ _ _ (setup_autotag_only_autotag _)) in Hauto.
  apply (keeps_Ok _ _ _ _ _ (discover_keys_only_identity _ _)) in Hdisc.
  apply (keeps_Ok _ _ _ _ _ (obfuscate_only_obfuscation _ _ _)) in Hobf.
  unfold on_cfg in *. simpl in *.
  rewrite Hobf, Hdisc, Hauto, Himp. simpl. done.
Qed.

(** ** Importers and the autotag rule *)

Global Instance settings_fixed_preorder : PreOrder settings_fixed.
Proof.
  split.
  - by intros c.
  - intros c1 c2 c3 (Ha1 & Hb1 & Hc1) (Ha2 & Hb2 & Hc2). unfold settings_fixed.
    split_and!; intros Hne.
    + rewrite Ha2; rewrite Ha1; done.
    + rewrite Hb2; rewrite Hb1; done.
    + rewrite Hc2; rewrite Hc1; done.
Qed.

Lemma settings_fixed_same c c' :
  vcard_gravatar c' = vcard_gravatar c → vcard_gpg c' = vcard_gpg c →
  prefs_autotag c' = prefs_autotag c → settings_fixed c c'.
Proof. intros H1 H2 H3. by split_and!. Qed.

Lemma list_truthy_false {A} (l : list A) : list_truthy l = false ↔ l = [].
Proof. by destruct l. Qed.

Lemma enable_importers_fixed env w :
  keeps (on_cfg settings_fixed) (enable_importers env) w.
Proof.
  unfold enable_importers.
  keeps_go ltac:(first [by apply settings_fixed_same|idtac]).
  - match goal with
    | H : negb _ = true |- _ => apply negb_true_iff, list_truthy_false in H
    end.
    by split_and!.
  - match goal with
    | H : _ && negb _ = true |- _ =>
        apply andb_true_iff in H as [_ H];
        apply negb_true_iff, list_truthy_false in H
    end.
    by split_and!.
Qed.

Lemma setup_autotag_fixed w : keeps (on_cfg settings_fixed) setup_autotag w.
Proof.
  unfold keeps, on_cfg, setup_autotag, bind, get_config, when, modify.
  destruct (_ && _) eqn:Hcond; simpl; [|done].
  apply andb_true_iff in Hcond as [_ Hlen]. apply Nat.eqb_eq in Hlen.
  apply nil_length_inv in Hlen. by split_and!.
Qed.

Lemma command_settings_fixed env rnd w :
  keeps (on_cfg settings_fixed) (command env rnd) w.
Proof.
  apply command_keeps_stages; [apply _|..];
    first [apply enable_importers_fixed
          |intros w0; apply setup_autotag_fixed
          |by_frame ltac:(by apply settings_fixed_same)].
Qed.

(** What the importer stage leaves in the two lists. *)
Lemma enable_importers_Ok env w u w' :
  enable_importers env w = Ok u w' →
  vcard_gravatar (cfg w')
  = (if list_truthy (vcard_gravatar (cfg w)) then vcard_gravatar (cfg w)
     else [mkGravatar true]) ∧
  vcard_gpg (cfg w')
  = (if gpg_home_exists env && negb (list_truthy (vcard_gpg (cfg w)))
     then [mkGpgImporter true (expanduser_gnupg env)]
     else vcard_gpg (cfg w)).
Proof.
  unfold enable_importers, bind, get_config, when, modify, emit, ret.
  destruct (vcard_gravatar (cfg w)) as [|g gs] eqn:Hg;
    destruct (gpg_home_exists env);
    destruct (vcard_gpg (cfg w)) as [|p ps] eqn:Hp; simpl;
    rewrite ?Hp; simpl; intros ?; simplify_eq; simpl; rewrite ?Hg, ?Hp; done.
Qed.

(** X4: the contact importers.  A gravatar or GnuPG importer list that is
    not empty is never touched, whatever the outcome of the run.  After a
    run that reports success an empty gravatar list has become the one
    active importer, and an empty GnuPG list has become the one active
    importer for the GnuPG home directory if that directory exists;
    otherwise the lists are as they were. *)
Theorem importers_enabled_once env rnd w :
  ((vcard_gravatar (cfg w) ≠ [] →
    vcard_gravatar (cfg (final (command env rnd w))) = vcard_gravatar (cfg w)) ∧
   (vcard_gpg (cfg w) ≠ [] →
    vcard_gpg (cfg (final (command env rnd w))) = vcard_gpg (cfg w))) ∧
  (∀ msg w',
     command env rnd w = Ok (Success msg) w' →
     vcard_gravatar (cfg w')
     = (if list_truthy (vcard_gravatar (cfg w)) then vcard_gravatar (cfg w)
        else [mkGravatar true]) ∧
     vcard_gpg (cfg w')
     = (if gpg_home_exists env && negb (list_truthy (vcard_gpg (cfg w)))
        then [mkGpgImporter true (expanduser_gnupg env)]
        else vcard_gpg (cfg w))).
Proof.
  split.
  - destruct (command_settings_fixed env rnd w) as (Hg & Hp & _). by split.
  - intros msg w' H. apply command_Success in H as [_ H].
    apply setup_body_Ok in H
      as (created & w1 & w1' & w2 & w3 & w4 & w5 & w6
          & Htags & (Hc1 & _ & _) & Hplug & Himp & Hauto & Hdisc & Hobf
          & -> & _).
    apply enable_importers_Ok in Himp. simpl in Himp.
    apply (keeps_Ok _ _ _ _ _ (create_standard_tags_only_tags _ _)) in Htags.
    apply (keeps_Ok _ _ _ _ _ (import_plugins_only_plugins _ _)) in Hplug.
    apply (keeps_Ok _ _ _ _ _ (setup_autotag_only_autotag _)) in Hauto.
    apply (keeps_Ok _ _ _ _ _ (discover_keys_only_identity _ _)) in Hdisc.
    apply (keeps_Ok _ _ _ _ _ (obfuscate_only_obfuscation _ _ _)) in Hobf.
    unfold on_cfg in *. simpl in *.
    rewrite Hplug, Hc1, Htags in Himp. simpl in Himp.
    rewrite Hobf, Hdisc, Hauto. simpl. exact Himp.
Qed.

(** What the autotag stage leaves in the rule list. *)
Lemma setup_autotag_Ok w u w' :
  setup_autotag w = Ok u w' →
  prefs_autotag (cfg w')
  = (if bool_decide ("autotag_sb" ∈ sys_plugins (cfg w))
        && negb (list_truthy (prefs_autotag (cfg w)))
     then [default_autotag_rule]
     else prefs_autotag (cfg w)).
Proof.
  unfold setup_autotag, bind, get_config, when, modify, ret.
  destruct (bool_decide ("autotag_sb" ∈ sys_plugins (cfg w)));
    destruct (prefs_autotag (cfg w)) as [|r rs] eqn:Hr; simpl;
    intros ?; simplify_eq; simpl; rewrite ?Hr; done.
Qed.

(** X5: the default autotag rule.  A rule list that is not empty is never
    touched, whatever the outcome of the run.  After a run that reports
    success an empty rule list has become the one spambayes rule (match
    "spam", unsure "maybespam", exclude "ham") if the spambayes autotagger is
    among the plugins at the end of the run, and is still empty if it is
    not. *)
Theorem autotag_rule_once env rnd w :
  (prefs_autotag (cfg w) ≠ [] →
   prefs_autotag (cfg (final (command env rnd w))) = prefs_autotag (cfg w)) ∧
  (∀ msg w',
     command env rnd w = Ok (Success msg) w' →
     prefs_autotag (cfg w')
     = (if bool_decide ("autotag_sb" ∈ sys_plugins (cfg w'))
           && negb (list_truthy (prefs_autotag (cfg w)))
        then [default_autotag_rule]
        else prefs_autotag (cfg w))).
Proof.
  split.
  - by destruct (command_settings_fixed env rnd w) as (_ & _ & Ha).
  - intros msg w' H. apply command_Success in H as [_ H].
    apply setup_body_Ok in H
      as (created & w1 & w1' & w2 & w3 & w4 & w5 & w6
          & Htags & (Hc1 & _ & _) & Hplug & Himp & Hauto & Hdisc & Hobf
          & -> & _).
    pose proof (keeps_Ok _ _ _ _ _ (setup_autotag_only_autotag _) Hauto) as Hfoot.
    apply setup_autotag_Ok in Hauto.
    apply (keeps_Ok _ _ _ _ _ (create_standard_tags_only_tags _ _)) in Htags.
    apply (keeps_Ok _ _ _ _ _ (import_plugins_only_plugins _ _)) in Hplug.
    apply (keeps_Ok _ _ _ _ _ (enable_importers_only_importers _ _)) in Himp.
    apply (keeps_Ok _ _ _ _ _ (discover_keys_only_identity _ _)) in Hdisc.
    apply (keeps_Ok _ _ _ _ _ (obfuscate_only_obfuscation _ _ _)) in Hobf.
    unfold on_cfg in *. simpl in *.
    assert (Hp : sys_plugins (cfg w4) = sys_plugins (cfg w3))
      by (rewrite Hfoot; done).
    assert (Ha : prefs_autotag (cfg w3) = prefs_autotag (cfg w))
      by (rewrite Himp, Hplug, Hc1, Htags; done).
    rewrite Hobf, Hdisc. simpl. rewrite Hp, Hauto, Ha. done.
Qed.

(** ** Which tags a run creates *)

Lemma tags_loop_created env (l : list (string * Attrs)) created w created' w' :
  for_each l (λ '(t, attrs) created, ensure_tag env t attrs created) created w
  = Ok created' w' →
  ∃ new,
    created' = created ++ new ∧
    tag_key <$> tags (cfg w') = (tag_key <$> tags (cfg w)) ++ new ∧
    NoDup new ∧
    ∀ k, k ∈ new ↔ k ∈ l.*1 ∧ k ∉ tag_key <$> tags (cfg w).
Proof.
  revert created w. induction l as [|[t attrs] l IH]; intros created w H; simpl in H.
  - injection H as <- <-. exists []. rewrite !app_nil_r.
    split_and!; [done|done|constructor|].
    intros k. split; [by intros ?%elem_of_nil|by intros [?%elem_of_nil _]].
  - apply bind_Ok in H as (c1 & w1 & Hstep & Hrest).
    rewrite ensure_tag_eq in Hstep.
    destruct (get_tag t (tags (cfg w))) as [x|] eqn:Hget.
    + injection Hstep as <- <-.
      apply IH in Hrest as (new & -> & Hkeys & Hnd & Hnew). simpl in *.
      rewrite update_tag_keys in Hkeys, Hnew.
      exists new. split_and!; [done..|].
      intros k. rewrite Hnew, ?fmap_cons, elem_of_cons. simpl.
      split; [naive_solver|]. intros [[->|Hin] Hnot]; [|done].
      exfalso. apply get_tag_None in Hnot. congruence.
    + destruct (AddTag_run env t) as [attrs0|]; [|done].
      injection Hstep as <- <-.
      apply IH in Hrest as (new & -> & Hkeys & Hnd & Hnew). simpl in *.
      rewrite update_tag_keys, fmap_app in Hkeys, Hnew. simpl in *.
      apply get_tag_None in Hget.
      exists (t :: new). split_and!.
      * by rewrite <- app_assoc.
      * by rewrite Hkeys, <- app_assoc.
      * apply NoDup_cons. split; [|done].
        intros [_ Hnot]%Hnew. apply Hnot, elem_of_app. right. by left.
      * intros k. rewrite ?fmap_cons, !elem_of_cons, Hnew, elem_of_app,
          list_elem_of_singleton. simpl.
        split.
        -- intros [->|[Hin Hnot]]; [by split; [left|]|].
           split; [by right|]. intros ?. apply Hnot. by left.
        -- intros [[->|Hin] Hnot]; [by left|].
           destruct (decide (k = t)) as [->|Hne]; [by left|].
           right. split; [done|]. by intros [?|?].
Qed.

(** X6: the tag stage appends exactly the missing canonical tags.  When the
    stage returns, the keys of the store are the keys it had, in the same
    order, followed by the created keys; the created keys are pairwise
    different and are exactly the canonical keys that the store did not have;
    nothing is saved and nothing is said. *)
Theorem missing_tags_created env w created w' :
  create_standard_tags env w = Ok created w' →
  tag_key <$> tags (cfg w') = (tag_key <$> tags (cfg w)) ++ created ∧
  NoDup created ∧
  (∀ k, k ∈ created ↔
        k ∈ (canonical_tags env).*1 ∧ k ∉ tag_key <$> tags (cfg w)) ∧
  disk w' = disk w ∧ log w' = log w.
Proof.
  intros H.
  pose proof (keeps_Ok _ _ _ _ _ (create_standard_tags_quiet env w) H) as [Hd Hl].
  rewrite create_standard_tags_flat in H.
  apply tags_loop_created in H as (new & -> & Hkeys & Hnd & Hnew).
  simpl. done.
Qed.

(** X7: the tag stage is idempotent.  After a stage that returned, a second
    one returns too, creates no tag and leaves the world exactly as it
    is. *)
Theorem tag_stage_twice env w created w' :
  create_standard_tags env w = Ok created w' →
  create_standard_tags env w' = Ok [] w'.
Proof.
  intros H. apply create_standard_tags_settled.
  by eapply create_standard_tags_Ok_settled.
Qed.

(** ** What reconciliation leaves alone *)

Global Instance attrs_kept_preorder env : PreOrder (attrs_kept env).
Proof.
  split.
  - intros c k x attr Hget _. eauto.
  - intros c1 c2 c3 H1 H2 k x attr Hget Hfree.
    destruct (H1 k x attr Hget Hfree) as (x2 & Hget2 & Heq2).
    destruct (H2 k x2 attr Hget2 Hfree) as (x3 & Hget3 & Heq3).
    exists x3. split; [done|congruence].
Qed.

Lemma ensure_tag_attrs_kept env t attrs created w :
  (t, attrs) ∈ canonical_tags env →
  keeps (on_cfg (attrs_kept env)) (ensure_tag env t attrs created) w.
Proof.
  intros Hcanon. unfold keeps, on_cfg. rewrite ensure_tag_eq.
  intros k x attr Hget Hfree.
  destruct (get_tag t (tags (cfg w))) as [y|] eqn:Hgt; simpl.
  - destruct (decide (k = t)) as [->|Hne].
    + rewrite get_tag_update_eq, Hgt. simpl. eexists; split; [done|]. simpl.
      assert (y = x) as -> by congruence.
      unfold dict_update. rewrite lookup_union_r; [done|by eapply Hfree].
    + rewrite get_tag_update_ne by done. eauto.
  - destruct (AddTag_run env t) as [new|]; simpl; [|eauto].
    assert (k ≠ t) as Hne by congruence.
    rewrite get_tag_update_ne by done. rewrite get_tag_app, Hget. eauto.
Qed.

Lemma command_attrs_kept env rnd w :
  keeps (on_cfg (attrs_kept env)) (command env rnd) w.
Proof.
  apply command_keeps_tags; [apply _| |].
  - intros c c' Heq k x attr Hget _. rewrite Heq. eauto.
  - apply create_standard_tags_keeps; [apply _|].
    intros t attrs created w0 Hin. by apply ensure_tag_attrs_kept.
Qed.

(** X8: reconciliation overwrites only what the canonical definition names.
    Take any tag of the store and any attribute name that no canonical
    definition for the tag's key mentions (for a tag outside the canonical
    taxonomy: any attribute name at all).  Whatever the outcome of the run,
    the key still finds a tag at the end and the attribute has the value it
    had. *)
Theorem foreign_attributes_kept env rnd w k x attr :
  get_tag k (tags (cfg w)) = Some x →
  (∀ attrs, (k, attrs) ∈ canonical_tags env → attrs !! attr = None) →
  ∃ x', get_tag k (tags (cfg (final (command env rnd w)))) = Some x' ∧
        tag_attrs x' !! attr = tag_attrs x !! attr.
Proof. intros Hget Hfree. by apply (command_attrs_kept env rnd w). Qed.

(** ** Where the recipient and the profiles come from *)

Global Instance recipient_from_preorder env : PreOrder (recipient_from env).
Proof.
  split.
  - intros c. by left.
  - intros c1 c2 c3 [H1|H1] [H2|H2]; unfold recipient_from.
    + left. congruence.
    + by right.
    + right. by rewrite H2.
    + by right.
Qed.

Lemma setup_key_recipient_from env key details acc w :
  (key, details) ∈ list_secret_keys env →
  keeps (on_cfg (recipient_from env)) (setup_key env key details acc) w.
Proof.
  intros Hin. unfold setup_key, add_profile.
  destruct (revoked env details) eqn:Hrev; [by apply keeps_ret, _|].
  keeps_go ltac:(first [by left|idtac]).
  match goal with
  | H : _ && _ = true |- _ => apply andb_true_iff in H as [_ H]
  end.
  right. exists details. simpl. done.
Qed.

Lemma command_recipient_from env rnd w :
  keeps (on_cfg (recipient_from env)) (command env rnd) w.
Proof.
  apply command_keeps_stages; [apply _|..];
    try (by_frame ltac:(by left)).
  intros w0. unfold discover_keys.
  destruct (gnupg_is_available env); [|keeps_go ltac:(by left)].
  apply keeps_bind; [apply _| |intros; by apply keeps_ret, _].
  apply keeps_for_each_elem; [apply _|]. intros [k d] acc w1 Hin.
  by apply setup_key_recipient_from.
Qed.

(** X9: where the recipient key comes from.  Whatever the outcome of a run,
    the recipient at the end is the recipient at the start or the key id of
    a key the keyring lists that is not revoked and can encrypt. *)
Theorem recipient_is_usable_key env rnd w :
  gpg_recipient (cfg (final (command env rnd w))) = gpg_recipient (cfg w) ∨
  ∃ details,
    (gpg_recipient (cfg (final (command env rnd w))), details)
    ∈ list_secret_keys env ∧
    revoked env details = false ∧ cap_encrypt details = true.
Proof. apply (command_recipient_from env rnd w). Qed.

Global Instance profiles_from_preorder env : PreOrder (profiles_from env).
Proof.
  split.
  - intros c. exists []. rewrite app_nil_r. split; [done|].
    intros p Hp. by apply elem_of_nil in Hp.
  - intros c1 c2 c3 (n1 & H1 & Hn1) (n2 & H2 & Hn2).
    exists (n1 ++ n2). split; [by rewrite H2, H1, app_assoc|].
    intros p [Hp|Hp]%elem_of_app; auto.
Qed.

Lemma profiles_from_same env c c' :
  profiles c' = profiles c → profiles_from env c c'.
Proof.
  intros H. exists []. rewrite app_nil_r. split; [done|].
  intros p Hp. by apply elem_of_nil in Hp.
Qed.

Lemma add_profile_from env key details uid w :
  (key, details) ∈ list_secret_keys env → revoked env details = false →
  uid ∈ uids details →
  keeps (on_cfg (profiles_from env)) (add_profile uid) w.
Proof.
  intros Hin Hrev Huid. unfold add_profile.
  destruct (uid_email uid) as [e|] eqn:He; [|by apply keeps_ret, _].
  destruct (decide (e = "")) as [|Hne]; [by apply keeps_ret, _|].
  apply keeps_get.
  destruct (decide (e ∈ email <$> profiles (cfg w))) as [|Hnot];
    [by apply keeps_ret, _|].
  destruct (uid_name uid) as [nm|] eqn:Hn; [|by apply keeps_raise, _].
  unfold keeps, on_cfg, modify. simpl.
  exists [mkProfile e nm]. split; [done|].
  intros p ->%list_elem_of_singleton. by exists key, details, uid.
Qed.

Lemma setup_key_profiles_from env key details acc w :
  (key, details) ∈ list_secret_keys env →
  keeps (on_cfg (profiles_from env)) (setup_key env key details acc) w.
Proof.
  intros Hin. unfold setup_key.
  destruct (revoked env details) eqn:Hrev; [by apply keeps_ret, _|].
  apply keeps_bind; [apply _| |intros [] w1].
  - apply keeps_for_elem; [apply _|]. intros uid w0 Huid.
    by eapply add_profile_from.
  - keeps_go ltac:(by apply profiles_from_same).
Qed.

Lemma command_profiles_from env rnd w :
  keeps (on_cfg (profiles_from env)) (command env rnd) w.
Proof.
  apply command_keeps_stages; [apply _|..];
    try (by_frame ltac:(by apply profiles_from_same)).
  intros w0. unfold discover_keys.
  destruct (gnupg_is_available env);
    [|keeps_go ltac:(by apply profiles_from_same)].
  apply keeps_bind; [apply _| |intros; by apply keeps_ret, _].
  apply keeps_for_each_elem; [apply _|]. intros [k d] acc w1 Hin.
  by apply setup_key_profiles_from.
Qed.

(** X10: where new profiles come from.  Whatever the outcome of a run, every
    profile it appended carries the e-mail address and the name of one user
    identity of a key that the keyring lists and that is not revoked. *)
Theorem profiles_from_keyring env rnd w :
  ∃ new,
    profiles (cfg (final (command env rnd w))) = profiles (cfg w) ++ new ∧
    ∀ p, p ∈ new →
         ∃ key details uid,
           (key, details) ∈ list_secret_keys env ∧
           revoked env details = false ∧ uid ∈ uids details ∧
           uid_email uid = Some (email p) ∧ uid_name uid = Some (name p).
Proof. apply (command_profiles_from env rnd w). Qed.

(** ** When the command raises *)

Lemma keeps_Raise {A} (R : relation World) (m : M A) w e w' :
  keeps R m w → m w = Raise e w' → R w w'.
Proof. unfold keeps. intros H Heq. by rewrite Heq in H. Qed.

(** A run that raises was stopped in the tag stage or in identity
    discovery; the stages in between returned. *)
Lemma setup_body_Raise env rnd w e w' :
  setup_body env rnd w = Raise e w' →
  create_standard_tags env
    (mkWorld (cfg w) (disk w)
       ((log w ++ [EvMigrate true false]) ++ [EvOpenLocalMailbox]))
  = Raise e w' ∨
  ∃ created w1 w1' w2 w3 w4,
    create_standard_tags env
      (mkWorld (cfg w) (disk w)
         ((log w ++ [EvMigrate true false]) ++ [EvOpenLocalMailbox]))
    = Ok created w1 ∧
    (cfg w1' = cfg w1 ∧ disk w1' = disk w1) ∧
    import_plugins env w1' = Ok () w2 ∧
    enable_importers env
      (mkWorld (cfg w2) (cfg w2) ((log w2 ++ [EvSave]) ++ [EvLoad]))
    = Ok () w3 ∧
    setup_autotag w3 = Ok () w4 ∧
    discover_keys env w4 = Raise e w'.
Proof.
  unfold setup_body. intros H.
  apply bind_Raise in H as [H|([] & wa & Ha & H)]; [done|]. injection Ha as <-.
  apply bind_Raise in H as [H|([] & wb & Hb & H)]; [done|]. injection Hb as <-.
  apply bind_Raise in H as [H|(created & w1 & Htags & H)]; [by left|]. right.
  apply bind_Raise in H as [H|([] & w1' & Hnotice & H)].
  { revert H. unfold when, emit, ret. by case_bool_decide. }
  apply created_notice_Ok in Hnotice as (Hc1 & Hd1 & _).
  apply bind_Raise in H as [H|([] & w2 & Hplug & H)].
  { by apply import_plugins_never_raises in H. }
  apply bind_Raise in H as [H|([] & wc & Hc & H)]; [done|]. injection Hc as <-.
  apply bind_Raise in H as [H|([] & wd & Hd & H)]; [done|]. injection Hd as <-.
  apply bind_Raise in H as [H|([] & w3 & Himp & H)].
  { by apply enable_importers_never_raises in H. }
  apply bind_Raise in H as [H|([] & w4 & Hauto & H)].
  { by apply setup_autotag_never_raises in H. }
  apply bind_Raise in H as [H|([] & w5 & Hdisc & H)].
  { exists created, w1, w1', w2, w3, w4. simpl in *. done. }
  apply bind_Raise in H as [H|([] & w6 & Hobf & H)].
  { by apply obfuscate_never_raises in H. }
  apply bind_Raise in H as [H|([] & we & He & H)]; [done|]. injection He as <-.
  apply bind_Raise in H as [H|([] & wf & Hf & H)]; [done|]. done.
Qed.

(** The loop stops at a tag that is missing and cannot be created. *)
Lemma tags_loop_Raise env (l : list (string * Attrs)) created w e w' :
  for_each l (λ '(t, attrs) created, ensure_tag env t attrs created) created w
  = Raise e w' →
  ∃ k attrs, (k, attrs) ∈ l ∧ get_tag k (tags (cfg w)) = None ∧
             AddTag_run env k = None.
Proof.
  revert created w. induction l as [|[t attrs] l IH]; intros created w H; simpl in H.
  - done.
  - apply bind_Raise in H as [H|(c1 & w1 & Hstep & Hrest)];
      rewrite ensure_tag_eq in *.
    + destruct (get_tag t (tags (cfg w))) eqn:Hget; [done|].
      destruct (AddTag_run env t) eqn:Hrun; [done|].
      exists t, attrs. split; [by left|done].
    + apply IH in Hrest as (k & a & Hin & Hnone & Hrun).
      exists k, a. split; [by right|]. split; [|done].
      apply get_tag_None. apply get_tag_None in Hnone. intros Hk. apply Hnone.
      destruct (get_tag t (tags (cfg w))) eqn:Hget.
      * injection Hstep as <- <-. simpl. by rewrite update_tag_keys.
      * destruct (AddTag_run env t); [|done].
        injection Hstep as <- <-. simpl.
        rewrite update_tag_keys, fmap_app. apply elem_of_app. by left.
Qed.

Lemma tags_loop_fails env (l : list (string * Attrs)) created w k attrs :
  (k, attrs) ∈ l → get_tag k (tags (cfg w)) = None → AddTag_run env k = None →
  ∃ w', for_each l (λ '(t, attrs) created, ensure_tag env t attrs created)
          created w = Raise AttributeError w'.
Proof.
  intros Hin Hnone Hrun. revert created w Hnone.
  induction l as [|[t a] l IH]; intros created w Hnone; simpl.
  - by apply elem_of_nil in Hin.
  - unfold bind. rewrite ensure_tag_eq.
    destruct (get_tag t (tags (cfg w))) as [x|] eqn:Hget.
    + apply elem_of_cons in Hin as [[= -> ->]|Hin]; [congruence|].
      apply IH; [done|]. simpl.
      rewrite get_tag_update_ne; [done|congruence].
    + destruct (AddTag_run env t) as [new|] eqn:Hnew; [|eauto].
      apply elem_of_cons in Hin as [[= -> ->]|Hin]; [congruence|].
      assert (k ≠ t) by congruence.
      apply IH; [done|]. simpl.
      rewrite get_tag_update_ne by done. rewrite get_tag_app, Hnone.
      by rewrite decide_False.
Qed.

(** X11: a tag that cannot be created aborts the run.  Outside lockdown the
    command raises [AttributeError] exactly when some canonical tag is
    missing from the store and [AddTag] creates none for it; the run then
    ends after the pre-migration and mailbox calls, with nothing saved and
    nothing reported to the user. *)
Theorem creation_failure_aborts env rnd w :
  sys_lockdown (cfg w) = false →
  ((∃ w', command env rnd w = Raise AttributeError w') ↔
   (∃ k attrs, (k, attrs) ∈ canonical_tags env ∧
               get_tag k (tags (cfg w)) = None ∧ AddTag_run env k = None)) ∧
  (∀ w', command env rnd w = Raise AttributeError w' →
         disk w' = disk w ∧
         log w' = log w ++ [EvMigrate true false; EvOpenLocalMailbox]).
Proof.
  intros Hlock. rewrite command_unlocked by done.
  assert (Htag : ∀ w', setup_body env rnd w = Raise AttributeError w' →
            create_standard_tags env
              (mkWorld (cfg w) (disk w)
                 ((log w ++ [EvMigrate true false]) ++ [EvOpenLocalMailbox]))
            = Raise AttributeError w').
  { intros w' H. apply setup_body_Raise in H as [H|H]; [done|].
    destruct H as (created & w1 & w1' & w2 & w3 & w4 & _ & _ & _ & _ & _ & H).
    apply discover_keys_raises in H as [?|[?|?]]; discriminate. }
  split; [split|].
  - intros (w' & H). apply Htag in H.
    rewrite create_standard_tags_flat in H. by apply tags_loop_Raise in H.
  - intros (k & attrs & Hin & Hnone & Hrun).
    destruct (tags_loop_fails env (canonical_tags env) []
                (mkWorld (cfg w) (disk w)
                   ((log w ++ [EvMigrate true false]) ++ [EvOpenLocalMailbox]))
                k attrs Hin Hnone Hrun) as (w' & H).
    exists w'. unfold setup_body.
    apply bind_Raise. right. eexists _, _. split; [reflexivity|].
    apply bind_Raise. right. eexists _, _. split; [reflexivity|].
    apply bind_Raise. left. by rewrite create_standard_tags_flat.
  - intros w' H. apply Htag in H.
    apply (keeps_Raise _ _ _ _ _ (create_standard_tags_quiet _ _)) in H
      as [Hd Hl].
    simpl in *. by rewrite Hl, <- app_assoc.
Qed.








(** ** When the command succeeds *)




(** ** Concrete runs of the additional properties *)

Lemma missing_tags_created_witness :
  tag_key <$> tags (cfg (final (create_standard_tags sample_env custom_world)))
  = (tag_key <$> tags (cfg custom_world))
    ++ returned [] (create_standard_tags sample_env custom_world) ∧
  NoDup (returned [] (create_standard_tags sample_env custom_world)) ∧
  (∀ k, k ∈ returned [] (create_standard_tags sample_env custom_world) ↔
        k ∈ (canonical_tags sample_env).*1 ∧
        k ∉ tag_key <$> tags (cfg custom_world)) ∧
  disk (final (create_standard_tags sample_env custom_world)) = disk custom_world ∧
  log (final (create_standard_tags sample_env custom_world)) = log custom_world.
Proof.
  apply (missing_tags_created sample_env custom_world
           (returned [] (create_standard_tags sample_env custom_world))
           (final (create_standard_tags sample_env custom_world))).
  vm_compute; reflexivity.
Defined.

Lemma tag_stage_twice_witness :
  create_standard_tags sample_env
    (final (create_standard_tags sample_env custom_world))
  = Ok [] (final (create_standard_tags sample_env custom_world)).
Proof.
  apply (tag_stage_twice sample_env custom_world
           (returned [] (create_standard_tags sample_env custom_world))
           (final (create_standard_tags sample_env custom_world))).
  vm_compute; reflexivity.
Defined.

Lemma foreign_attributes_kept_witness :
  ∃ x',
    get_tag "Ham" (tags (cfg (final (command sample_env sample_rnd custom_world))))
    = Some x' ∧
    tag_attrs x' !! "icon"
    = tag_attrs (mkTag "Ham" {[ "icon" := PyStr "icon-ham" ]}) !! "icon".
Proof.
  apply (foreign_attributes_kept sample_env sample_rnd custom_world "Ham"
           (mkTag "Ham" {[ "icon" := PyStr "icon-ham" ]}) "icon").
  - reflexivity.
  - intros attrs Hin.
    rewrite (canonical_tags_consistent sample_env "Ham" attrs
               (list_to_map [ ("type", PyStr "ham");
                              ("display", PyStr "invisible");
                              ("name", PyStr "Ham") ]) Hin).
    + vm_compute; reflexivity.
    + apply (bool_decide_unpack _). by vm_compute.
Defined.

Lemma creation_failure_aborts_witness :
  ((∃ w', command failing_env sample_rnd fresh_world = Raise AttributeError w') ↔
   (∃ k attrs, (k, attrs) ∈ canonical_tags failing_env ∧
               get_tag k (tags (cfg fresh_world)) = None ∧
               AddTag_run failing_env k = None)) ∧
  (∀ w', command failing_env sample_rnd fresh_world = Raise AttributeError w' →
         disk w' = disk fresh_world ∧
         log w' = log fresh_world ++ [EvMigrate true false; EvOpenLocalMailbox]).
Proof.
  apply (creation_failure_aborts failing_env sample_rnd fresh_world).
  reflexivity.
Defined.


Lemma crypto_policy_upgraded_witness :
  crypto_policy (cfg first_run_world) ≠ "none".
Proof.
  apply (proj2 (crypto_policy_upgraded sample_env sample_rnd fresh_world)
           "Performed initial Mailpile setup" first_run_world
           "KEYA" (mkKey None [mkUid (Some "alice@example.com") (Some "Alice")] true)).
  - vm_compute; reflexivity.
  - reflexivity.
  - unfold sample_env, sample_keyring. simpl. left.
  - reflexivity.
Defined.

(** * Failures and repeated runs *)

(** ** A user identity without a name *)

(** What the loop body does with one record, case by case. *)
Lemma add_profile_eq uid w :
  add_profile uid w
  = match uid_email uid with
    | None => Ok () w
    | Some addr =>
        if decide (addr = "") then Ok () w
        else if decide (addr ∈ email <$> profiles (cfg w)) then Ok () w
        else match uid_name uid with
             | None => Raise (KeyError "name") w
             | Some n =>
                 Ok () (mkWorld (set_profiles (λ l, l ++ [mkProfile addr n]) (cfg w))
                          (disk w) (log w))
             end
    end.
Proof.
  unfold add_profile. destruct (uid_email uid) as [addr|]; [|done].
  destruct (decide (addr = "")); [done|].
  unfold bind, get_config.
  destruct (decide (addr ∈ email <$> profiles (cfg w))); [done|].
  by destruct (uid_name uid).
Qed.

(** C10: take an accepted key of the keyring and one of its user identities
    that has a non-empty e-mail address and no name, at any position of the
    keyring and of the key's identity list.  (1) If the keys before it and
    the identities before it are processed without an exception and the
    address is in no profile when the record is reached, identity discovery
    raises [KeyError] for "name" there, in the very world the record was
    reached in: the record is not skipped.  (2) So discovery returns only if
    the address was already in a profile when the record was reached, and
    only then the record is passed over without its name being read. *)
Theorem nameless_uid_fails env w before key details after us1 uid us2 addr :
  gnupg_is_available env = true →
  list_secret_keys env = before ++ (key, details) :: after →
  revoked env details = false →
  uids details = us1 ++ uid :: us2 →
  uid_email uid = Some addr → addr ≠ "" → uid_name uid = None →
  (∀ accepted_keys w0 w1,
     for_each before
       (λ '(key, details) accepted_keys, setup_key env key details accepted_keys)
       [] w = Ok accepted_keys w0 →
     for_ us1 add_profile w0 = Ok () w1 →
     addr ∉ email <$> profiles (cfg w1) →
     discover_keys env w = Raise (KeyError "name") w1) ∧
  (∀ w',
     discover_keys env w = Ok () w' →
     ∃ accepted_keys w0 w1,
       for_each before
         (λ '(key, details) accepted_keys, setup_key env key details accepted_keys)
         [] w = Ok accepted_keys w0 ∧
       for_ us1 add_profile w0 = Ok () w1 ∧
       addr ∈ email <$> profiles (cfg w1) ∧
       add_profile uid w1 = Ok () w1).
Proof.
  intros Havail Hkeys Hrev Huids Hmail Haddr Hname.
  assert (Hrec : ∀ w1, add_profile uid w1
                       = if decide (addr ∈ email <$> profiles (cfg w1))
                         then Ok () w1 else Raise (KeyError "name") w1).
  { intros w1. rewrite add_profile_eq, Hmail, Hname.
    by rewrite decide_False by done. }
  split.
  - intros acc w0 w1 Hbefore Hus1 Hnew.
    unfold discover_keys. rewrite Havail, Hkeys.
    unfold bind at 1. rewrite for_each_app.
    unfold bind at 1. rewrite Hbefore. simpl.
    unfold bind at 1. unfold setup_key. rewrite Hrev, Huids.
    unfold bind at 1. unfold for_. rewrite for_each_app.
    unfold bind at 1. fold (for_ us1 add_profile). rewrite Hus1. simpl.
    unfold bind at 1. rewrite Hrec, decide_False by done. done.
  - intros w' H. unfold discover_keys in H. rewrite Havail, Hkeys in H.
    apply bind_Ok in H as (acc' & wl & H & _).
    rewrite for_each_app in H.
    apply bind_Ok in H as (acc & w0 & Hbefore & H). simpl in H.
    apply bind_Ok in H as (acc1 & wk & H & _).
    unfold setup_key in H. rewrite Hrev, Huids in H.
    apply bind_Ok in H as ([] & wu & H & _).
    unfold for_ in H. rewrite for_each_app in H.
    apply bind_Ok in H as ([] & w1 & Hus1 & H). simpl in H.
    apply bind_Ok in H as ([] & w1' & H & _).
    exists acc, w0, w1. split; [done|]. split; [done|].
    rewrite Hrec in *.
    by destruct (decide (addr ∈ email <$> profiles (cfg w1))).
Qed.

Lemma nameless_uid_fails_witness :
  discover_keys nameless_env fresh_world
  = Raise (KeyError "name")
      (final (for_ [mkUid (Some "alice@example.com") None] add_profile
                (final (for_each sample_keyring
                          (λ '(key, details) accepted_keys,
                             setup_key nameless_env key details accepted_keys)
                          [] fresh_world)))).
Proof.
  apply (proj1 (nameless_uid_fails nameless_env fresh_world sample_keyring
                  "KEYU" nameless_key []
                  [mkUid (Some "alice@example.com") None]
                  (mkUid (Some "dave@example.com") None) [] "dave@example.com"
                  eq_refl eq_refl eq_refl eq_refl eq_refl
                  ltac:(discriminate) eq_refl)
           ["KEYA"; "KEYB"]
           (final (for_each sample_keyring
                     (λ '(key, details) accepted_keys,
                        setup_key nameless_env key details accepted_keys)
                     [] fresh_world))).
  - vm_compute; reflexivity.
  - vm_compute; reflexivity.
  - apply (bool_decide_unpack _). by vm_compute.
Defined.

(** ** A tag that cannot be created *)

Global Instance stays_missing_preorder k : PreOrder (stays_missing k).
Proof.
  split.
  - intros c H. exact H.
  - intros c1 c2 c3 H1 H2 H. by apply H2, H1.
Qed.

Lemma ensure_tag_stays_missing env k t attrs created w :
  AddTag_run env k = None →
  keeps (on_cfg (stays_missing k)) (ensure_tag env t attrs created) w.
Proof.
  intros Hrun. unfold keeps, on_cfg, stays_missing. rewrite ensure_tag_eq.
  intros Hnone.
  destruct (get_tag t (tags (cfg w))) as [y|] eqn:Hget; simpl.
  - rewrite get_tag_update_ne; [done|congruence].
  - destruct (AddTag_run env t) as [new|] eqn:Hnew; simpl; [|done].
    assert (k ≠ t) by congruence.
    rewrite get_tag_update_ne by done. rewrite get_tag_app, Hnone.
    by rewrite decide_False.
Qed.

Lemma ensure_tag_same_tag env k t attrs created w :
  k ≠ t →
  keeps (on_cfg (same_on (λ c, get_tag k (tags c))))
    (ensure_tag env t attrs created) w.
Proof.
  intros Hne. unfold keeps, on_cfg, same_on. rewrite ensure_tag_eq.
  destruct (get_tag t (tags (cfg w))) as [y|] eqn:Hget; simpl.
  - by rewrite get_tag_update_ne.
  - destruct (AddTag_run env t) as [new|] eqn:Hnew; simpl; [|done].
    rewrite get_tag_update_ne by done. rewrite get_tag_app.
    destruct (get_tag k (tags (cfg w))); [done|]. by rewrite decide_False.
Qed.

(** The command raises what the tag stage raises, where it raises it. *)
Lemma setup_body_tags_Raise env rnd w e w' :
  create_standard_tags env
    (mkWorld (cfg w) (disk w)
       ((log w ++ [EvMigrate true false]) ++ [EvOpenLocalMailbox]))
  = Raise e w' →
  setup_body env rnd w = Raise e w'.
Proof.
  intros H. unfold setup_body.
  apply bind_Raise. right. eexists _, _. split; [reflexivity|].
  apply bind_Raise. right. eexists _, _. split; [reflexivity|].
  apply bind_Raise. by left.
Qed.

(** C8, as the code has it: a creation failure is not collected.  Outside
    lockdown, when a canonical tag is missing from the store and [AddTag]
    creates none for it, the command raises [AttributeError] and ends
    there: no message reaches the user interface (the log ends at the
    mailbox call), nothing is saved, no later stage has run (the
    configuration in memory differs from the initial one in its tags only),
    and the tag is still missing.  When the key is one of [TAGS], whose loop
    comes first, no attribute tag ([mp_sig-...], [mp_enc-...]) has been
    created or updated: each one is found as it was at the start. *)
Theorem tag_failure_aborts env rnd w k attrs :
  sys_lockdown (cfg w) = false →
  (k, attrs) ∈ canonical_tags env →
  get_tag k (tags (cfg w)) = None →
  AddTag_run env k = None →
  ∃ w',
    command env rnd w = Raise AttributeError w' ∧
    only_tags (cfg w) (cfg w') ∧
    disk w' = disk w ∧
    log w' = log w ++ [EvMigrate true false; EvOpenLocalMailbox] ∧
    get_tag k (tags (cfg w')) = None ∧
    ((k, attrs) ∈ TAGS (gettext env) →
     ∀ stype status,
       stype = "sig" ∨ stype = "enc" →
       get_tag (attribute_tagname stype status) (tags (cfg w'))
       = get_tag (attribute_tagname stype status) (tags (cfg w))).
Proof.
  intros Hlock Hin Hnone Hrun. rewrite command_unlocked by done.
  set (w0 := mkWorld (cfg w) (disk w)
               ((log w ++ [EvMigrate true false]) ++ [EvOpenLocalMailbox])).
  destruct (tags_loop_fails env (canonical_tags env) [] w0 k attrs Hin Hnone Hrun)
    as (w' & H).
  rewrite <- create_standard_tags_flat in H.
  exists w'. split; [by apply setup_body_tags_Raise|].
  pose proof (keeps_Raise _ _ _ _ _ (create_standard_tags_only_tags _ _) H) as Htags.
  pose proof (keeps_Raise _ _ _ _ _ (create_standard_tags_quiet _ _) H) as [Hd Hl].
  assert (Hmiss : keeps (on_cfg (stays_missing k)) (create_standard_tags env) w0).
  { apply create_standard_tags_keeps; [apply _|].
    intros t a created w1 _. by apply ensure_tag_stays_missing. }
  apply (keeps_Raise _ _ _ _ _ Hmiss) in H as Hk.
  split; [exact Htags|]. split; [exact Hd|].
  split; [simpl in Hl; by rewrite Hl, <- app_assoc|].
  split; [by apply Hk|].
  intros Hfirst stype status Hstype.
  destruct (tags_loop_fails env (TAGS (gettext env)) [] w0 k attrs
              Hfirst Hnone Hrun) as (w1 & Hloop).
  assert (w1 = w') as ->.
  { revert H. unfold create_standard_tags, bind. rewrite Hloop. congruence. }
  assert (Hsame : keeps (on_cfg (same_on (λ c, get_tag
                           (attribute_tagname stype status) (tags c))))
            (for_each (TAGS (gettext env))
               (λ '(t, attrs) created, ensure_tag env t attrs created) []) w0).
  { apply keeps_for_each_elem; [apply _|]. intros [t a] acc w2 Ht.
    apply ensure_tag_same_tag. intros Heq.
    apply (TAGS_keys_not_attribute (gettext env) t stype status); [|done..].
    apply list_elem_of_fmap. by exists (t, a). }
  by apply (keeps_Raise _ _ _ _ _ Hsame) in Hloop.
Qed.

Lemma tag_failure_aborts_witness :
  ∃ w',
    command failing_env sample_rnd fresh_world = Raise AttributeError w' ∧
    only_tags (cfg fresh_world) (cfg w') ∧
    disk w' = disk fresh_world ∧
    log w' = log fresh_world ++ [EvMigrate true false; EvOpenLocalMailbox] ∧
    get_tag "Inbox" (tags (cfg w')) = None ∧
    (("Inbox", inbox_attrs) ∈ TAGS (gettext failing_env) →
     ∀ stype status,
       stype = "sig" ∨ stype = "enc" →
       get_tag (attribute_tagname stype status) (tags (cfg w'))
       = get_tag (attribute_tagname stype status) (tags (cfg fresh_world))).
Proof.
  apply (tag_failure_aborts failing_env sample_rnd fresh_world "Inbox" inbox_attrs).
  - reflexivity.
  - apply (bool_decide_unpack _). by vm_compute.
  - reflexivity.
  - reflexivity.
Defined.

(** C8, as the claim states it, fails where one tag cannot be created: of
    all tags only "Inbox" fails, yet the command raises instead of running
    on, the attribute tag [mp_sig-verified], which comes after every tag of
    [TAGS], is never created, and the log holds no report of the failure. *)
Lemma tag_failure_collected_cex :
  ∃ w',
    command failing_env sample_rnd fresh_world = Raise AttributeError w' ∧
    (∀ k, k ≠ "Inbox" → is_Some (AddTag_run failing_env k)) ∧
    ("mp_sig-verified", attribute_attrs) ∈ canonical_tags failing_env ∧
    get_tag "mp_sig-verified" (tags (cfg w')) = None ∧
    log w' = [EvMigrate true false; EvOpenLocalMailbox].
Proof.
  exists (final (command failing_env sample_rnd fresh_world)).
  split; [vm_compute; reflexivity|].
  split.
  { intros k Hk. unfold failing_env, with_AddTag_run. simpl.
    by rewrite decide_False. }
  split; [apply (bool_decide_unpack _); by vm_compute|].
  split; vm_compute; reflexivity.
Qed.

(** ** A second run *)























